(** * Log-to-step segmentation of [scripts/scrap_formated_runsv2.py]

    A shallow embedding of [get_step_workflow_code], [get_step_identifier]
    and [parse_log_by_steps], together with the properties of the
    segmentation engine.

    Conventions of the embedding.
    - A Python [str] is a [string]; a character is an [ascii] read as a code
      point below 256.  Character classes ([\b], [re.IGNORECASE],
      [str.strip], [str.splitlines]) are the ones Python 3 uses on that
      range.  Text with code points of 256 and more is outside the model.
    - Line indices are [Z], as the code stores [-1] for a step that was not
      located.
    - A step of the workflow YAML is a record of optional fields; a key that
      is present carries a string ([run], [uses], [name]) or a mapping of
      strings in insertion order ([with], [env]).
    - The [print] calls of the source have no effect on the result and are
      left out. *)

From Stdlib Require Import List ZArith Lia Bool Ascii String Permutation Sorted.
Import ListNotations.

Local Open Scope string_scope.
Local Open Scope Z_scope.

(** ** Characters *)

Module Chars.

Definition code (c : ascii) : N := N_of_ascii c.

Definition in_range (lo hi : N) (c : ascii) : bool :=
  (lo <=? code c)%N && (code c <=? hi)%N.

Definition LF : ascii := "010"%char.
Definition CR : ascii := "013"%char.
Definition ESC : ascii := "027"%char.

(** [str.isalnum] on code points below 256, or an underscore: the class
    [\w] of a Unicode pattern. *)
Definition is_word (c : ascii) : bool :=
  in_range 48 57 c || in_range 65 90 c || in_range 97 122 c
  || (code c =? 95)%N
  || (code c =? 170)%N || (code c =? 181)%N || (code c =? 186)%N
  || in_range 178 179 c || (code c =? 185)%N || in_range 188 190 c
  || in_range 192 214 c || in_range 216 246 c || in_range 248 255 c.

(** [str.isspace] on code points below 256: what [str.strip()] removes. *)
Definition is_space (c : ascii) : bool :=
  in_range 9 13 c || in_range 28 32 c || (code c =? 133)%N
  || (code c =? 160)%N.

(** The line boundaries of [str.splitlines] below 256. *)
Definition is_linebreak (c : ascii) : bool :=
  in_range 10 13 c || in_range 28 30 c || (code c =? 133)%N.

(** Simple lower-casing, as [re.IGNORECASE] applies it. *)
Definition lower (c : ascii) : ascii :=
  if in_range 65 90 c || in_range 192 214 c || in_range 216 222 c
  then ascii_of_N (code c + 32)
  else c.

Definition ci_eqb (a b : ascii) : bool := Ascii.eqb (lower a) (lower b).

Definition is_param (c : ascii) : bool :=
  in_range 48 57 c || (code c =? 59)%N.

End Chars.

Import Chars.

(** ** Strings *)

Module Str.

Definition hd (s : string) : option ascii :=
  match s with
  | EmptyString => None
  | String c _ => Some c
  end.

Definition is_empty (s : string) : bool :=
  match s with
  | EmptyString => true
  | String _ _ => false
  end.

(** [sub in s] *)
Fixpoint contains (sub s : string) : bool :=
  prefix sub s ||
  match s with
  | EmptyString => false
  | String _ s' => contains sub s'
  end.

(** [s.split('\n')]: never empty. *)
Fixpoint split_nl (s : string) : list string :=
  match s with
  | EmptyString => [EmptyString]
  | String c s' =>
      if Ascii.eqb c LF then EmptyString :: split_nl s'
      else match split_nl s' with
           | h :: t => String c h :: t
           | [] => [String c EmptyString]
           end
  end.

(** ['\n'.join(ls)] *)
Definition join_nl (ls : list string) : string :=
  concat (String LF EmptyString) ls.

(** [s.splitlines()]; [after_cr] tells that the previous character was a
    carriage return, whose following line feed belongs to the same
    boundary. *)
Fixpoint splitlines_from (after_cr : bool) (s : string) : list string :=
  match s with
  | EmptyString => []
  | String c s' =>
      if after_cr && Ascii.eqb c LF then splitlines_from false s'
      else if is_linebreak c
      then EmptyString :: splitlines_from (Ascii.eqb c CR) s'
      else match splitlines_from false s' with
           | h :: t => String c h :: t
           | [] => [String c EmptyString]
           end
  end.

Definition splitlines (s : string) : list string := splitlines_from false s.

(** [s.lstrip('|')] *)
Fixpoint lstrip_bar (s : string) : string :=
  match s with
  | String "|" s' => lstrip_bar s'
  | _ => s
  end.

Fixpoint lstrip (s : string) : string :=
  match s with
  | EmptyString => EmptyString
  | String c s' => if is_space c then lstrip s' else s
  end.

Fixpoint rstrip (s : string) : string :=
  match s with
  | EmptyString => EmptyString
  | String c s' =>
      let r := rstrip s' in
      if is_empty r && is_space c then EmptyString else String c r
  end.

(** [s.strip()] *)
Definition strip (s : string) : string := rstrip (lstrip s).

Fixpoint all_space (s : string) : bool :=
  match s with
  | EmptyString => true
  | String c s' => is_space c && all_space s'
  end.

(** The text before the first line boundary. *)
Fixpoint first_line (s : string) : string :=
  match s with
  | EmptyString => EmptyString
  | String c s' => if is_linebreak c then EmptyString else String c (first_line s')
  end.

End Str.

(** ** Regular expressions of the engine *)

Module Re.

(** [re.sub(r, '', s)] for an expression [r] that is given by the length of
    its match at the head of a string: the leftmost matches, none
    overlapping, are dropped.  [skip] counts the characters of the current
    match that are still to drop. *)
Fixpoint sub_empty (match_len : string -> option nat) (skip : nat)
    (s : string) : string :=
  match s with
  | EmptyString => EmptyString
  | String c s' =>
      match skip with
      | S k => sub_empty match_len k s'
      | O =>
          match match_len s with
          | Some (S k) => sub_empty match_len k s'
          | _ => String c (sub_empty match_len 0 s')
          end
      end
  end.

(** [[0-9;]*[mK]] at the head of [s]. *)
Fixpoint ansi_tail_len (s : string) : option nat :=
  match s with
  | EmptyString => None
  | String c s' =>
      if is_param c then option_map S (ansi_tail_len s')
      else if Ascii.eqb c "m" || Ascii.eqb c "K" then Some 1%nat
      else None
  end.

(** [\x1b\[[0-9;]*[mK]] at the head of [s]. *)
Definition ansi_len (s : string) : option nat :=
  match s with
  | String e (String "[" s') =>
      if Ascii.eqb e ESC then option_map (fun n => S (S n)) (ansi_tail_len s')
      else None
  | _ => None
  end.

(** [[^\]]*\]] at the head of [s]. *)
Fixpoint marker_tail_len (s : string) : option nat :=
  match s with
  | EmptyString => None
  | String "]" _ => Some 1%nat
  | String _ s' => option_map S (marker_tail_len s')
  end.

(** [##\[[^\]]+\]] at the head of [s]. *)
Definition marker_len (s : string) : option nat :=
  match s with
  | String "#" (String "#" (String "[" (String c s'))) =>
      if Ascii.eqb c "]" then None
      else option_map (fun n => S (S (S (S n)))) (marker_tail_len s')
  | _ => None
  end.

(** A word boundary between two neighbours; [None] is an end of the text. *)
Definition word_side (c : option ascii) : bool :=
  match c with
  | Some a => is_word a
  | None => false
  end.

Definition boundary (before after : option ascii) : bool :=
  xorb (word_side before) (word_side after).

(** The escaped identifier read at the head of [s], case ignored: the last
    character read (or [prev]) and the rest of the text. *)
Fixpoint literal (p s : string) (prev : option ascii)
    : option (option ascii * string) :=
  match p with
  | EmptyString => Some (prev, s)
  | String a p' =>
      match s with
      | EmptyString => None
      | String b s' => if ci_eqb a b then literal p' s' (Some b) else None
      end
  end.

(** [\b<p>\b] at the head of [s], the character before being [prev]. *)
Definition match_here (prev : option ascii) (p s : string) : bool :=
  boundary prev (Str.hd s) &&
  match literal p s prev with
  | Some (last, rest) => boundary last (Str.hd rest)
  | None => false
  end.

Fixpoint search_from (prev : option ascii) (p s : string) : bool :=
  match_here prev p s ||
  match s with
  | EmptyString => false
  | String c s' => search_from (Some c) p s'
  end.

(** [re.search(rf'\b{re.escape(p)}\b', line, re.IGNORECASE)] is a match. *)
Definition search_word (p line : string) : bool := search_from None p line.

End Re.

(** ** Data model *)

(** A step of the job, as read from the workflow YAML. *)
Record StepSpec := mkStep {
  s_name : option string;
  s_run : option string;
  s_uses : option string;
  s_with : option (list (string * string));
  s_env : option (list (string * string))
}.

(** An entry of [step_patterns]. *)
Record Pattern := mkPattern {
  step : StepSpec;
  pattern : string;
  found : bool;
  start_idx : Z;
  end_idx : Z
}.

Inductive StepType := setup | action.

(** An entry of [parsed_steps].  The keys that the setup record does not
    have are [None] there; [uses] and [run] of an action record are [None]
    when [dict.get] finds no key. *)
Record StepRecord := mkRecord {
  name : string;
  type : StepType;
  uses : option string;
  run : option string;
  with_ : option (list (string * string));
  env : option (list (string * string));
  log_content : string;
  start_line : Z;
  end_line : Z;
  pattern_matched : option string;
  note : option string;
  workflow_code : option string
}.

Definition get {A} (o : option A) (default : A) : A :=
  match o with
  | Some v => v
  | None => default
  end.

(** [l[lo:hi]] *)
Definition slice {A} (l : list A) (lo hi : Z) : list A :=
  let len := Z.of_nat (List.length l) in
  let norm i := if i <? 0 then Z.max 0 (i + len) else Z.min i len in
  firstn (Z.to_nat (norm hi - norm lo)) (skipn (Z.to_nat (norm lo)) l).

(** ** The functions of the scraper *)

Definition Run_ : string := "Run ".
Definition unknown_step : string := "Run Unknown Step".

Definition kv_line (kv : string * string) : string :=
  "  " ++ fst kv ++ ": " ++ snd kv.

Definition opt_lines {A} (o : option A) (f : A -> list string) : list string :=
  match o with
  | Some v => f v
  | None => []
  end.

Definition get_step_workflow_code (st : StepSpec) : string :=
  Str.join_nl
    (opt_lines (s_run st) (fun r => ["Run:" ++ String LF r])
     ++ opt_lines (s_uses st) (fun u => ["Uses: " ++ u])
     ++ opt_lines (s_name st) (fun n => ["Name: " ++ n])
     ++ opt_lines (s_with st) (fun kvs => "With:" :: map kv_line kvs)
     ++ opt_lines (s_env st) (fun kvs => "Env:" :: map kv_line kvs)).

Definition get_step_identifier (st : StepSpec) : string :=
  match s_run st with
  | Some raw =>
      match Str.splitlines raw with
      | first :: _ => Run_ ++ Str.strip (Str.lstrip_bar first)
      | [] => unknown_step
      end
  | None =>
      match s_uses st with
      | Some u => Run_ ++ u
      | None =>
          match s_name st with
          | Some n => Run_ ++ n
          | None => unknown_step
          end
      end
  end.

(** The two [re.sub] calls and the split into [log_lines]. *)
Definition clean (log_content : string) : string :=
  Re.sub_empty Re.marker_len 0 (Re.sub_empty Re.ansi_len 0 log_content).

Definition log_lines (log_content : string) : list string :=
  Str.split_nl (clean log_content).

Definition setup_end_pattern (job_name : string) : string :=
  "Complete job name: " ++ job_name.

(** The loop over [enumerate(log_lines)]: the lines appended to [setup_log]
    and the value of [setup_end_idx], which stays [0] without a [break]. *)
Fixpoint scan_setup (pat : string) (i : Z) (lines : list string)
    : list string * Z :=
  match lines with
  | [] => ([], 0)
  | line :: rest =>
      if Str.contains pat line then ([], i)
      else let (setup_log, idx) := scan_setup pat (i + 1) rest in
           (line :: setup_log, idx)
  end.

Definition setup_step (setup_log : list string) (setup_end_idx : Z)
    : StepRecord :=
  {| name := "Set up job"; type := setup; uses := None; run := None;
     with_ := None; env := None;
     log_content := Str.join_nl setup_log;
     start_line := 0; end_line := setup_end_idx;
     pattern_matched := None; note := None; workflow_code := None |}.

Definition new_pattern (st : StepSpec) : Pattern :=
  {| step := st; pattern := get_step_identifier st; found := false;
     start_idx := -1; end_idx := -1 |}.

Definition mark_found (p : Pattern) (i : Z) : Pattern :=
  {| step := step p; pattern := pattern p; found := true;
     start_idx := i; end_idx := end_idx p |}.

(** The inner loop over [step_patterns] for the line [i]: the first pattern
    that is not found yet and matches is marked, and the loop breaks. *)
Fixpoint scan_patterns (i : Z) (line : string) (ps : list Pattern)
    : list Pattern :=
  match ps with
  | [] => []
  | p :: ps' =>
      if negb (found p) && Re.search_word (pattern p) line
      then mark_found p i :: ps'
      else p :: scan_patterns i line ps'
  end.

(** The outer loop over [enumerate(remaining_lines, start=i)]. *)
Fixpoint locate (i : Z) (lines : list string) (ps : list Pattern)
    : list Pattern :=
  match lines with
  | [] => ps
  | line :: rest => locate (i + 1) rest (scan_patterns i line ps)
  end.

(** [list.sort(key=lambda x: x['start_idx'])]: stable, ascending. *)
Fixpoint insert_by_start (p : Pattern) (l : list Pattern) : list Pattern :=
  match l with
  | [] => [p]
  | q :: l' =>
      if start_idx p <=? start_idx q then p :: l
      else q :: insert_by_start p l'
  end.

Fixpoint sort_by_start (l : list Pattern) : list Pattern :=
  match l with
  | [] => []
  | p :: l' => insert_by_start p (sort_by_start l')
  end.

Definition name_of_found (st : StepSpec) : string :=
  get (s_name st) (Run_ ++ get (s_uses st) EmptyString).

Definition found_step_data (lines : list string) (p : Pattern) (e : Z)
    : StepRecord :=
  {| name := name_of_found (step p);
     type := action;
     uses := s_uses (step p); run := s_run (step p);
     with_ := Some (get (s_with (step p)) []);
     env := Some (get (s_env (step p)) []);
     log_content := Str.join_nl (slice lines (start_idx p) (e + 1));
     start_line := start_idx p; end_line := e;
     pattern_matched := Some (pattern p);
     note := None;
     workflow_code := Some (get_step_workflow_code (step p)) |}.

Definition unfound_step_data (p : Pattern) : StepRecord :=
  {| name := get (s_name (step p)) "Unnamed Step";
     type := action;
     uses := s_uses (step p); run := s_run (step p);
     with_ := Some (get (s_with (step p)) []);
     env := Some (get (s_env (step p)) []);
     log_content := EmptyString;
     start_line := -1; end_line := -1;
     pattern_matched := Some (pattern p);
     note := Some "Step not found in log";
     workflow_code := Some (get_step_workflow_code (step p)) |}.

(** The loop over [enumerate(found_patterns)]: the end of a step is the line
    before the next found step, or the last line of the log.  The store into
    [pattern_info['end_idx']] is read by nothing afterwards and is left
    out. *)
Fixpoint found_records (lines : list string) (fps : list Pattern)
    : list StepRecord :=
  match fps with
  | [] => []
  | p :: rest =>
      let e := match rest with
               | q :: _ => start_idx q - 1
               | [] => Z.of_nat (List.length lines) - 1
               end in
      found_step_data lines p e :: found_records lines rest
  end.

(** [step_patterns] after the search. *)
Definition located_patterns (log_content : string)
    (job_steps : list StepSpec) (job_name : string) : list Pattern :=
  let lines := log_lines log_content in
  let setup_end_idx := snd (scan_setup (setup_end_pattern job_name) 0 lines) in
  locate (setup_end_idx + 1) (slice lines (setup_end_idx + 1) (Z.of_nat (List.length lines)))
    (map new_pattern job_steps).

Definition parse_log_by_steps (log_content : string)
    (job_steps : list StepSpec) (job_name : string) : list StepRecord :=
  let lines := log_lines log_content in
  let (setup_log, setup_end_idx) :=
    scan_setup (setup_end_pattern job_name) 0 lines in
  let step_patterns :=
    locate (setup_end_idx + 1)
      (slice lines (setup_end_idx + 1) (Z.of_nat (List.length lines)))
      (map new_pattern job_steps) in
  let found_patterns := sort_by_start (filter found step_patterns) in
  setup_step setup_log setup_end_idx
  :: found_records lines found_patterns
  ++ map unfound_step_data (filter (fun p => negb (found p)) step_patterns).

(** ** Shorthands for concrete steps and logs *)

Definition nl : string := String LF EmptyString.

Definition run_step (r : string) : StepSpec :=
  mkStep None (Some r) None None None.

Definition uses_step (u : string) : StepSpec :=
  mkStep None None (Some u) None None.

Definition log_without_sentinel : string := "boot" ++ nl ++ "Run echo hi".

Definition log_with_sentinel : string :=
  "boot" ++ nl ++ "Complete job name: build" ++ nl ++ "Run echo hi"
  ++ nl ++ "hello".

Definition log_with_two_runs : string :=
  "Complete job name: build" ++ nl ++ "Run make" ++ nl ++ "ok" ++ nl
  ++ "Run make".

(** ** Predicates of the specification *)

(** The sentinel is in none of the first [k] lines and in line [k]. *)
Definition first_sentinel_at (pat : string) (lines : list string) (k : nat)
    : Prop :=
  (exists line, nth_error lines k = Some line /\ Str.contains pat line = true)
  /\ forall j line, (j < k)%nat -> nth_error lines j = Some line ->
       Str.contains pat line = false.

Definition no_sentinel (pat : string) (lines : list string) : Prop :=
  forall line, In line lines -> Str.contains pat line = false.

(** No pattern of [ps] takes the line: each is found already or does not
    match. *)
Definition none_takes (line : string) (ps : list Pattern) : Prop :=
  Forall (fun q => found q = true \/ Re.search_word (pattern q) line = false) ps.

Definition found_starts (ps : list Pattern) : list Z :=
  map start_idx (filter found ps).

(** A pattern is as it was created, or it was marked at a line of
    [all] that lies in [lo, hi) and that its identifier matches. *)
Definition placed (all : list string) (lo hi : Z) (p : Pattern) : Prop :=
  p = new_pattern (step p)
  \/ exists i line,
       p = mark_found (new_pattern (step p)) i
       /\ lo <= i < hi
       /\ nth_error all (Z.to_nat i) = Some line
       /\ Re.search_word (get_step_identifier (step p)) line = true.

Definition search_inv (all : list string) (lo hi : Z) (ps : list Pattern)
    : Prop :=
  Forall (placed all lo hi) ps
  /\ NoDup (found_starts ps)
  /\ Forall (fun x => lo <= x < hi) (found_starts ps).

Definition start_le (p q : Pattern) : Prop := start_idx p <= start_idx q.
Definition start_lt (p q : Pattern) : Prop := start_idx p < start_idx q.

(** Each range ends on the line before the next one starts, and the last
    one on the last line of the log. *)
Fixpoint contiguous (total : Z) (rs : list StepRecord) : Prop :=
  match rs with
  | [] => True
  | r :: rest =>
      match rest with
      | [] => end_line r = total - 1
      | r' :: _ =>
          start_line r < start_line r' /\ end_line r = start_line r' - 1
      end
      /\ contiguous total rest
  end.

(** The normalized lines, the setup scan and the patterns after the search,
    as [parse_log_by_steps] computes them. *)
Definition setup_end_idx (log_content job_name : string) : Z :=
  snd (scan_setup (setup_end_pattern job_name) 0 (log_lines log_content)).

Definition setup_log (log_content job_name : string) : list string :=
  fst (scan_setup (setup_end_pattern job_name) 0 (log_lines log_content)).

Definition sorted_found (log_content : string) (job_steps : list StepSpec)
    (job_name : string) : list Pattern :=
  sort_by_start (filter found (located_patterns log_content job_steps job_name)).

Definition not_found (p : Pattern) : bool := negb (found p).

(** The fields of a record that come from the step alone. *)
Definition origin (r : StepRecord) :=
  (run r, uses r, with_ r, env r, pattern_matched r, workflow_code r).

Definition origin_of_step (st : StepSpec) :=
  (s_run st, s_uses st, Some (get (s_with st) []), Some (get (s_env st) []),
   Some (get_step_identifier st), Some (get_step_workflow_code st)).

Definition origin_of_pattern (p : Pattern) :=
  (s_run (step p), s_uses (step p), Some (get (s_with (step p)) []),
   Some (get (s_env (step p)) []), Some (pattern p),
   Some (get_step_workflow_code (step p))).

(** The action records of the steps that were located. *)
Definition is_located (r : StepRecord) : bool :=
  match type r with
  | action => negb (start_line r =? -1)
  | setup => false
  end.

Definition located_records (out : list StepRecord) : list StepRecord :=
  filter is_located out.

(** [l1] is [l2] with some elements left out, the order kept. *)
Inductive subseq {A} : list A -> list A -> Prop :=
| subseq_nil : subseq [] []
| subseq_skip x l1 l2 : subseq l1 l2 -> subseq l1 (x :: l2)
| subseq_keep x l1 l2 : subseq l1 l2 -> subseq (x :: l1) (x :: l2).

Definition unfound_record (st : StepSpec) : StepRecord :=
  unfound_step_data (new_pattern st).

Definition start_line_lt (r r' : StepRecord) : Prop :=
  start_line r < start_line r'.

(** The lines the search reads: [remaining_lines]. *)
Definition remaining_lines (log_content job_name : string) : list string :=
  skipn (Z.to_nat (setup_end_idx log_content job_name + 1))
    (log_lines log_content).

(** No line that the search reads matches the identifier of [st]. *)
Definition never_matched (log_content job_name : string) (st : StepSpec)
    : Prop :=
  forall line, In line (remaining_lines log_content job_name) ->
    Re.search_word (get_step_identifier st) line = false.

(** Whether the search marked the pattern of the step at position [j]. *)
Definition step_found (log_content : string) (job_steps : list StepSpec)
    (job_name : string) (j : nat) : bool :=
  match nth_error (located_patterns log_content job_steps job_name) j with
  | Some p => found p
  | None => false
  end.

(** The line at which the search marked the pattern of the step at
    position [j], or -1. *)
Definition step_start_line (log_content : string) (job_steps : list StepSpec)
    (job_name : string) (j : nat) : Z :=
  match nth_error (located_patterns log_content job_steps job_name) j with
  | Some p => start_idx p
  | None => -1
  end.

(** [r] is the record of the located step at position [j] of [job_steps]:
    it carries the fields of that step and starts at the line where the
    search marked it. *)
Definition located_from (log_content : string) (job_steps : list StepSpec)
    (job_name : string) (r : StepRecord) (j : nat) : Prop :=
  exists st,
    nth_error job_steps j = Some st
    /\ origin r = origin_of_step st
    /\ start_line r = step_start_line log_content job_steps job_name j.

(** [r] is the record of the step at position [j] of [job_steps], reported
    as not found. *)
Definition unlocated_from (job_steps : list StepSpec) (r : StepRecord)
    (j : nat) : Prop :=
  exists st, nth_error job_steps j = Some st /\ r = unfound_record st.

(** [enumerate(l, start=i)] *)
Fixpoint enumerate {A} (i : Z) (l : list A) : list (Z * A) :=
  match l with
  | [] => []
  | x :: l' => (i, x) :: enumerate (i + 1) l'
  end.

(** The record covers the lines [start_line] to [end_line] of the log, which
    all come after line [k]. *)
Definition spans_after (lines : list string) (k : Z) (r : StepRecord) : Prop :=
  k + 1 <= start_line r <= end_line r
  /\ end_line r < Z.of_nat (List.length lines)
  /\ log_content r
     = Str.join_nl
         (firstn (Z.to_nat (end_line r - start_line r + 1))
            (skipn (Z.to_nat (start_line r)) lines)).

Definition unresolved (r : StepRecord) : Prop :=
  start_line r = -1 /\ end_line r = -1 /\ log_content r = EmptyString.

(** ** The workflow document and the job lookups *)

(** The value under [needs]: a string, a list, or anything else. *)
Inductive Needs :=
| needs_str (s : string)
| needs_list (l : list string)
| needs_other.

(** A job of the workflow YAML; [j_name] is the string under [name]. *)
Record JobData := mkJob {
  j_name : option string;
  j_steps : option (list StepSpec);
  j_needs : option Needs
}.

(** The parsed workflow: the mapping under [jobs], in insertion order. *)
Record Workflow := mkWorkflow {
  w_jobs : option (list (string * JobData))
}.

(** [s.lower()] on code points below 256. *)
Fixpoint lower_str (s : string) : string :=
  match s with
  | EmptyString => EmptyString
  | String c s' => String (lower c) (lower_str s')
  end.

(** [jobs[k]] when [k in jobs]. *)
Fixpoint lookup_job (k : string) (jobs : list (string * JobData))
    : option JobData :=
  match jobs with
  | [] => None
  | (k', jd) :: rest => if String.eqb k' k then Some jd else lookup_job k rest
  end.

(** [job_data.get('name') == job_name] *)
Definition named (job_name : string) (kv : string * JobData) : bool :=
  match j_name (snd kv) with
  | Some n => String.eqb n job_name
  | None => false
  end.

(** [job_name.lower() in str(job_data.get('name', '')).lower()] *)
Definition partly_named (job_name : string) (kv : string * JobData) : bool :=
  Str.contains (lower_str job_name)
    (lower_str (get (j_name (snd kv)) EmptyString)).

Definition get_job_steps_from_yaml (workflow_yaml : Workflow)
    (job_name : string) : list StepSpec :=
  let jobs := get (w_jobs workflow_yaml) [] in
  match lookup_job job_name jobs with
  | Some jd => get (j_steps jd) []
  | None =>
      match find (named job_name) jobs with
      | Some (_, jd) => get (j_steps jd) []
      | None =>
          match find (partly_named job_name) jobs with
          | Some (_, jd) => get (j_steps jd) []
          | None => []
          end
      end
  end.

(** The [isinstance] tests on [job_data.get('needs', [])]. *)
Definition dependencies_of (jd : JobData) : list string :=
  match j_needs jd with
  | Some (needs_str s) => [s]
  | Some (needs_list l) => l
  | Some needs_other => []
  | None => []
  end.

Definition get_job_dependencies (workflow_yaml : Workflow)
    (job_name : string) : list string :=
  let jobs := get (w_jobs workflow_yaml) [] in
  match lookup_job job_name jobs with
  | Some jd => dependencies_of jd
  | None =>
      match find (named job_name) jobs with
      | Some (_, jd) => dependencies_of jd
      | None =>
          match find (partly_named job_name) jobs with
          | Some (_, jd) => dependencies_of jd
          | None => []
          end
      end
  end.

(** ** Log file names and the match of a job with its log *)

(** [.txt] at the head of [s]. *)
Definition txt_len (s : string) : option nat :=
  if prefix ".txt" s then Some 4%nat else None.

Fixpoint after_digits (s : string) : string :=
  match s with
  | EmptyString => EmptyString
  | String c s' => if in_range 48 57 c then after_digits s' else s
  end.

(** The text before the first line feed: what [.+] takes. *)
Fixpoint until_lf (s : string) : string :=
  match s with
  | EmptyString => EmptyString
  | String c s' => if Ascii.eqb c LF then EmptyString else String c (until_lf s')
  end.

(** [re.match(r'^\d+_(.+)', s)]: the group of the match. *)
Definition numbered_group (s : string) : option string :=
  match s with
  | EmptyString => None
  | String c _ =>
      if in_range 48 57 c
      then match after_digits s with
           | String "_" rest =>
               match until_lf rest with
               | EmptyString => None
               | g => Some g
               end
           | _ => None
           end
      else None
  end.

Definition _extract_job_name_from_filename (filename : string) : string :=
  let name_without_ext := Re.sub_empty txt_len 0 filename in
  match numbered_group name_without_ext with
  | Some g => g
  | None => name_without_ext
  end.

(** [re.sub(r'\W+', '_', s)]; [in_run] tells that the previous character
    was not a word character. *)
Fixpoint collapse_nonword (in_run : bool) (s : string) : string :=
  match s with
  | EmptyString => EmptyString
  | String c s' =>
      if is_word c then String c (collapse_nonword false s')
      else if in_run then collapse_nonword true s'
      else String "_" (collapse_nonword true s')
  end.

Definition normalizer (s : string) : string :=
  lower_str (collapse_nonword false s).

(** A job of the API: the string under [name], when there is one. *)
Record ApiJob := mkApiJob {
  a_name : option string
}.

Definition same_name (job_name_norm : string) (kv : string * string) : bool :=
  String.eqb job_name_norm (normalizer (fst kv)).

Definition partial_name (job_name_norm : string) (kv : string * string)
    : bool :=
  Str.contains job_name_norm (normalizer (fst kv))
  || Str.contains (normalizer (fst kv)) job_name_norm.

Definition _match_job_with_log (job : ApiJob) (logs_dict : list (string * string))
    : string :=
  let job_name_norm := normalizer (get (a_name job) EmptyString) in
  match find (same_name job_name_norm) logs_dict with
  | Some (_, log_content) => log_content
  | None =>
      match find (partial_name job_name_norm) logs_dict with
      | Some (_, log_content) => log_content
      | None => EmptyString
      end
  end.

(** ** Further predicates *)

Definition workflow_ex : Workflow :=
  mkWorkflow
    (Some [("build", mkJob (Some "Build app") (Some [run_step "make"])
                       (Some (needs_str "lint")));
           ("lint", mkJob None None None)]).

(** Only word characters, none of them in upper case. *)
Fixpoint lower_word (s : string) : bool :=
  match s with
  | EmptyString => true
  | String c s' => is_word c && Ascii.eqb (lower c) c && lower_word s'
  end.

Definition job_named (n : string) : ApiJob := mkApiJob (Some n).

Fixpoint mem_char (c : ascii) (s : string) : bool :=
  match s with
  | EmptyString => false
  | String c' s' => Ascii.eqb c' c || mem_char c s'
  end.

Fixpoint last_char (s : string) : option ascii :=
  match s with
  | EmptyString => None
  | String c s' =>
      match s' with
      | EmptyString => Some c
      | String _ _ => last_char s'
      end
  end.

(** Neither the first nor the last character is whitespace. *)
Definition trimmed (s : string) : Prop :=
  (forall c, Str.hd s = Some c -> is_space c = false)
  /\ (forall c, last_char s = Some c -> is_space c = false).

Fixpoint all_digits (s : string) : bool :=
  match s with
  | EmptyString => true
  | String c s' => in_range 48 57 c && all_digits s'
  end.

(** The job matches the name by its key, by its [name], or by its [name]
    with the case ignored and only in part. *)
Definition job_matches (job_name : string) (kv : string * JobData) : Prop :=
  fst kv = job_name \/ named job_name kv = true
  \/ partly_named job_name kv = true.

(** For two patterns with one identifier, the second is found only after
    the first. *)
Definition in_list_order (p q : Pattern) : Prop :=
  pattern p = pattern q -> found q = true ->
  found p = true /\ start_idx p < start_idx q.

(** * Properties *)

(** ** Runs on concrete inputs *)

Example split_nl_ex :
  Str.split_nl ("a" ++ String LF ("b" ++ String LF EmptyString))
  = ["a"; "b"; EmptyString].
Proof. reflexivity. Qed.

Example splitlines_ex :
  Str.splitlines ("a" ++ String CR (String LF ("b" ++ String LF EmptyString)))
  = ["a"; "b"].
Proof. reflexivity. Qed.

Example strip_ex : Str.strip (Str.lstrip_bar "|  echo hi ") = "echo hi".
Proof. reflexivity. Qed.

Example sub_ansi_ex :
  Re.sub_empty Re.ansi_len 0 ("a" ++ String ESC "[1;32mb" ++ String ESC "[x")
  = "ab" ++ String ESC "[x".
Proof. reflexivity. Qed.

Example sub_marker_ex :
  Re.sub_empty Re.marker_len 0 "##[group]Run x ##[] ##[e" = "Run x ##[] ##[e".
Proof. reflexivity. Qed.

Example search_word_ex1 : Re.search_word "Run test" "Run test-unit" = true.
Proof. reflexivity. Qed.

Example search_word_ex2 : Re.search_word "Run test" "run tests" = false.
Proof. reflexivity. Qed.

Example scenario_A :
  map (fun r => (start_line r, end_line r, log_content r))
    (parse_log_by_steps
       ("Complete job name: build" ++ nl ++ "Run echo hi" ++ nl ++ "hello" ++ nl)
       [run_step "echo hi"] "build")
  = [(0, 0, EmptyString);
     (1, 3, "Run echo hi" ++ nl ++ "hello" ++ nl)].
Proof. vm_compute. reflexivity. Qed.

Example scenario_B :
  map (fun r => (start_line r, end_line r, log_content r, note r))
    (parse_log_by_steps
       ("Complete job name: build" ++ nl ++ "Run echo hi")
       [uses_step "actions/checkout@v4"] "build")
  = [(0, 0, EmptyString, None);
     (-1, -1, EmptyString, Some "Step not found in log")].
Proof. vm_compute. reflexivity. Qed.

(** ** Slices and the setup scan *)

Lemma slice_to_end {A} (l : list A) (lo : Z) :
  0 <= lo -> slice l lo (Z.of_nat (List.length l)) = skipn (Z.to_nat lo) l.
Proof.
  intros Hlo. unfold slice.
  assert (Hlen : 0 <= Z.of_nat (List.length l)) by lia.
  destruct (Z.ltb_spec (Z.of_nat (List.length l)) 0) as [Hn|_]; [lia|].
  destruct (Z.ltb_spec lo 0) as [Hn|_]; [lia|].
  rewrite Z.min_id.
  destruct (Z.le_gt_cases lo (Z.of_nat (List.length l))) as [Hle|Hgt].
  - rewrite Z.min_l by lia.
    apply firstn_all2. rewrite length_skipn. lia.
  - rewrite Z.min_r by lia.
    rewrite Z.sub_diag. simpl.
    symmetry. apply skipn_all2. lia.
Qed.

Lemma slice_inside {A} (l : list A) (lo hi : Z) :
  0 <= lo -> lo <= hi -> hi <= Z.of_nat (List.length l) ->
  slice l lo hi = firstn (Z.to_nat (hi - lo)) (skipn (Z.to_nat lo) l).
Proof.
  intros Hlo Hle Hhi. unfold slice.
  destruct (Z.ltb_spec hi 0) as [Hn|_]; [lia|].
  destruct (Z.ltb_spec lo 0) as [Hn|_]; [lia|].
  rewrite !Z.min_l by lia. reflexivity.
Qed.

Lemma scan_setup_absent pat i lines :
  no_sentinel pat lines -> scan_setup pat i lines = (lines, 0).
Proof.
  revert i. induction lines as [|line rest IH]; intros i H; simpl.
  - reflexivity.
  - rewrite (H line (or_introl eq_refl)).
    rewrite IH; [reflexivity|].
    intros l Hl. apply H. now right.
Qed.

Lemma scan_setup_present pat i lines k :
  first_sentinel_at pat lines k ->
  scan_setup pat i lines = (firstn k lines, i + Z.of_nat k).
Proof.
  revert i k. induction lines as [|line rest IH]; intros i k [[l [Hk Hl]] Hbefore].
  - destruct k; discriminate.
  - destruct k as [|k]; simpl in *.
    + injection Hk as ->. rewrite Hl. f_equal. lia.
    + rewrite (Hbefore 0%nat line) by (simpl; auto; lia).
      rewrite (IH (i + 1) k).
      * f_equal. lia.
      * split; [now exists l|].
        intros j l' Hj Hnth. apply (Hbefore (S j) l'); [lia|exact Hnth].
Qed.

Lemma scan_setup_idx_nonneg pat i lines :
  0 <= i -> 0 <= snd (scan_setup pat i lines).
Proof.
  revert i. induction lines as [|line rest IH]; intros i Hi; simpl.
  - lia.
  - destruct (Str.contains pat line); simpl; [lia|].
    specialize (IH (i + 1) ltac:(lia)).
    destruct (scan_setup pat (i + 1) rest). exact IH.
Qed.

(** ** The inner loop *)

Lemma scan_patterns_cases i line ps :
  (none_takes line ps /\ scan_patterns i line ps = ps)
  \/ exists before p after,
       ps = (before ++ p :: after)%list
       /\ none_takes line before
       /\ found p = false
       /\ Re.search_word (pattern p) line = true
       /\ scan_patterns i line ps = (before ++ mark_found p i :: after)%list.
Proof.
  induction ps as [|q ps IH]; simpl.
  - left. split; [constructor|reflexivity].
  - destruct (found q) eqn:Hf; simpl.
    + destruct IH as [[Hn He]|(b & p & a & -> & Hn & Hp & Hm & He)].
      * left. split; [constructor; auto|now rewrite He].
      * right. exists (q :: b), p, a. repeat split; auto.
        -- constructor; auto.
        -- simpl. now rewrite He.
    + destruct (Re.search_word (pattern q) line) eqn:Hs.
      * right. exists [], q, ps. repeat split; auto. constructor.
      * destruct IH as [[Hn He]|(b & p & a & -> & Hn & Hp & Hm & He)].
        -- left. split; [constructor; auto|now rewrite He].
        -- right. exists (q :: b), p, a. repeat split; auto.
           ++ constructor; auto.
           ++ simpl. now rewrite He.
Qed.

Lemma scan_patterns_steps i line ps :
  map step (scan_patterns i line ps) = map step ps.
Proof.
  induction ps as [|q ps IH]; simpl; [reflexivity|].
  destruct (negb (found q) && Re.search_word (pattern q) line); simpl.
  - reflexivity.
  - now rewrite IH.
Qed.

Lemma locate_steps lines : forall i ps,
  map step (locate i lines ps) = map step ps.
Proof.
  induction lines as [|line rest IH]; intros i ps; simpl.
  - reflexivity.
  - rewrite IH. apply scan_patterns_steps.
Qed.

Lemma locate_app l1 : forall l2 i ps,
  locate i (l1 ++ l2)%list ps
  = locate (i + Z.of_nat (List.length l1)) l2 (locate i l1 ps).
Proof.
  induction l1 as [|line rest IH]; intros l2 i ps; simpl List.length.
  - simpl. f_equal. lia.
  - simpl app. simpl locate. rewrite IH. f_equal. lia.
Qed.

(** ** The invariant of the search *)

Section Search.

Variable all : list string.
Variable lo : Z.

Lemma placed_weaken hi hi' p : hi <= hi' -> placed all lo hi p -> placed all lo hi' p.
Proof.
  intros Hle [H|(i & line & H & Hi & Hn & Hs)]; [now left|].
  right. exists i, line. repeat split; auto; lia.
Qed.

Lemma found_starts_app l1 l2 :
  found_starts (l1 ++ l2) = (found_starts l1 ++ found_starts l2)%list.
Proof. unfold found_starts. now rewrite filter_app, map_app. Qed.

Lemma search_inv_init steps hi : search_inv all lo hi (map new_pattern steps).
Proof.
  assert (Hs : found_starts (map new_pattern steps) = []).
  { induction steps as [|s steps IH]; simpl; auto. }
  unfold search_inv. rewrite Hs. repeat split; try constructor.
  apply Forall_forall. intros p Hp. apply in_map_iff in Hp.
  destruct Hp as [s [<- _]]. now left.
Qed.

Lemma scan_patterns_inv i line ps :
  lo <= i ->
  nth_error all (Z.to_nat i) = Some line ->
  search_inv all lo i ps ->
  search_inv all lo (i + 1) (scan_patterns i line ps).
Proof.
  intros Hi Hline (Hpl & Hnd & Hrg).
  destruct (scan_patterns_cases i line ps)
    as [[_ ->]|(b & p & a & -> & _ & Hf & Hm & ->)].
  - repeat split; auto.
    + eapply Forall_impl; [|exact Hpl]. intros q. apply placed_weaken. lia.
    + eapply Forall_impl; [|exact Hrg]. simpl. intros; lia.
  - unfold search_inv.
    rewrite found_starts_app in Hnd, Hrg |- *.
    unfold found_starts in Hnd, Hrg |- *. simpl in Hnd, Hrg |- *.
    rewrite Hf in Hnd, Hrg.
    apply Forall_app in Hpl. destruct Hpl as [Hb Hpa].
    inversion Hpa as [|? ? Hp Ha]; subst.
    assert (Hnew : p = new_pattern (step p)).
    { destruct Hp as [H|(j & l & H & _)]; [exact H|].
      rewrite H in Hf. discriminate. }
    repeat split.
    + apply Forall_app. split; [|constructor].
      * eapply Forall_impl; [|exact Hb]. intros q. apply placed_weaken. lia.
      * right. exists i, line. simpl. repeat split; auto; try lia.
        -- now rewrite Hnew at 1.
        -- rewrite Hnew in Hm. exact Hm.
      * eapply Forall_impl; [|exact Ha]. intros q. apply placed_weaken. lia.
    + apply NoDup_Add with (a := i) (l := (map start_idx (filter found b)
                                         ++ map start_idx (filter found a))%list).
      * apply Add_app.
      * split; [exact Hnd|].
        intros Hin. rewrite Forall_forall in Hrg. specialize (Hrg i Hin). lia.
    + apply Forall_app in Hrg. destruct Hrg as [R1 R2].
      apply Forall_app. split; [|constructor; [lia|]].
      * eapply Forall_impl; [|exact R1]. simpl. intros; lia.
      * eapply Forall_impl; [|exact R2]. simpl. intros; lia.
Qed.

Lemma skipn_cons_nth {A} (l : list A) : forall n x r,
  skipn n l = x :: r -> nth_error l n = Some x /\ skipn (S n) l = r.
Proof.
  induction l as [|y l IH]; intros n x r H.
  - rewrite skipn_nil in H. discriminate.
  - destruct n as [|n]; simpl in H.
    + injection H as -> ->. split; reflexivity.
    + apply IH in H. exact H.
Qed.

Lemma locate_inv lines : forall i ps,
  0 <= i -> lo <= i ->
  lines = skipn (Z.to_nat i) all ->
  search_inv all lo i ps ->
  search_inv all lo (i + Z.of_nat (List.length lines)) (locate i lines ps).
Proof.
  induction lines as [|line rest IH]; intros i ps H0 Hi Hl Hinv.
  - simpl. now rewrite Z.add_0_r.
  - symmetry in Hl. apply skipn_cons_nth in Hl. destruct Hl as [Hn Hr].
    simpl locate.
    replace (i + Z.of_nat (List.length (line :: rest)))
      with ((i + 1) + Z.of_nat (List.length rest)) by (simpl List.length; lia).
    apply IH; try lia.
    + rewrite <- Hr. f_equal. lia.
    + now apply scan_patterns_inv.
Qed.

End Search.

(** ** The sort of the found patterns *)

Lemma insert_by_start_perm p l : Permutation (insert_by_start p l) (p :: l).
Proof.
  induction l as [|q l IH]; simpl.
  - apply Permutation_refl.
  - destruct (start_idx p <=? start_idx q).
    + apply Permutation_refl.
    + eapply perm_trans; [apply perm_skip, IH|apply perm_swap].
Qed.

Lemma sort_by_start_perm l : Permutation (sort_by_start l) l.
Proof.
  induction l as [|p l IH]; simpl.
  - constructor.
  - eapply perm_trans; [apply insert_by_start_perm|now apply perm_skip].
Qed.

Lemma insert_by_start_sorted p l :
  StronglySorted start_le l -> StronglySorted start_le (insert_by_start p l).
Proof.
  induction 1 as [|q l Hs IH Hq]; simpl.
  - constructor; constructor.
  - destruct (Z.leb_spec (start_idx p) (start_idx q)) as [Hle|Hgt].
    + constructor; [now constructor|].
      constructor; [exact Hle|].
      eapply Forall_impl; [|exact Hq]. unfold start_le. intros; lia.
    + constructor; [exact IH|].
      eapply Permutation_Forall;
        [apply Permutation_sym, insert_by_start_perm|].
      constructor; [unfold start_le; lia|exact Hq].
Qed.

Lemma sort_by_start_sorted l : StronglySorted start_le (sort_by_start l).
Proof.
  induction l as [|p l IH]; simpl.
  - constructor.
  - now apply insert_by_start_sorted.
Qed.

Lemma sorted_strict l :
  StronglySorted start_le l -> NoDup (map start_idx l) ->
  StronglySorted start_lt l.
Proof.
  induction 1 as [|p l Hs IH Hp]; intros Hnd; simpl in *.
  - constructor.
  - inversion Hnd as [|? ? Hnin Hnd']; subst.
    constructor; [now apply IH|].
    rewrite Forall_forall in Hp |- *. intros q Hq.
    specialize (Hp q Hq). unfold start_le, start_lt in *.
    assert (start_idx p <> start_idx q).
    { intros E. apply Hnin. rewrite E. now apply in_map. }
    lia.
Qed.

(** ** The records of the found steps *)

Lemma found_records_starts lines fps :
  map start_line (found_records lines fps) = map start_idx fps.
Proof.
  induction fps as [|p fps IH]; simpl; [reflexivity|now rewrite IH].
Qed.

Lemma found_records_length lines fps :
  List.length (found_records lines fps) = List.length fps.
Proof.
  induction fps as [|p fps IH]; simpl; [reflexivity|now rewrite IH].
Qed.

Lemma found_records_contiguous lines fps :
  StronglySorted start_lt fps ->
  contiguous (Z.of_nat (List.length lines)) (found_records lines fps).
Proof.
  induction 1 as [|p fps Hs IH Hp]; simpl; [exact I|].
  split; [|exact IH].
  destruct fps as [|q fps]; simpl; [reflexivity|].
  inversion Hp; subst. split; [assumption|reflexivity].
Qed.

Lemma found_records_action lines fps :
  Forall (fun r => type r = action /\ note r = None) (found_records lines fps).
Proof.
  induction fps as [|p fps IH]; simpl; constructor; auto.
Qed.

(** ** The shape of the result *)

Lemma parse_shape log steps job :
  parse_log_by_steps log steps job
  = setup_step (setup_log log job) (setup_end_idx log job)
    :: (found_records (log_lines log) (sorted_found log steps job)
        ++ map unfound_step_data
             (filter not_found (located_patterns log steps job)))%list.
Proof.
  unfold parse_log_by_steps, sorted_found, located_patterns, setup_log,
    setup_end_idx.
  destruct (scan_setup (setup_end_pattern job) 0 (log_lines log)).
  reflexivity.
Qed.

Lemma scan_setup_idx_range pat i lines :
  0 <= i ->
  snd (scan_setup pat i lines) = 0
  \/ i <= snd (scan_setup pat i lines) < i + Z.of_nat (List.length lines).
Proof.
  revert i. induction lines as [|line rest IH]; intros i Hi; simpl.
  - now left.
  - destruct (Str.contains pat line); simpl; [right; lia|].
    specialize (IH (i + 1) ltac:(lia)).
    destruct (scan_setup pat (i + 1) rest). simpl in *. lia.
Qed.

Lemma split_nl_length s : (1 <= List.length (Str.split_nl s))%nat.
Proof.
  induction s as [|c s IH]; simpl; [lia|].
  destruct (Ascii.eqb c LF); simpl; [lia|].
  destruct (Str.split_nl s); simpl in *; lia.
Qed.

Lemma setup_end_idx_range log job :
  0 <= setup_end_idx log job < Z.of_nat (List.length (log_lines log)).
Proof.
  unfold setup_end_idx.
  pose proof (split_nl_length (clean log)) as Hlen. fold (log_lines log) in Hlen.
  destruct (scan_setup_idx_range (setup_end_pattern job) 0 (log_lines log));
    lia.
Qed.

Lemma located_inv log steps job :
  search_inv (log_lines log) (setup_end_idx log job + 1)
    (Z.of_nat (List.length (log_lines log)))
    (located_patterns log steps job).
Proof.
  unfold located_patterns. fold (setup_end_idx log job).
  pose proof (setup_end_idx_range log job) as Hidx.
  rewrite slice_to_end by lia.
  pose proof (locate_inv (log_lines log) (setup_end_idx log job + 1)
                (skipn (Z.to_nat (setup_end_idx log job + 1)) (log_lines log))
                (setup_end_idx log job + 1) (map new_pattern steps)
                ltac:(lia) ltac:(lia) eq_refl
                (search_inv_init _ _ steps _)) as H.
  rewrite length_skipn in H.
  replace (setup_end_idx log job + 1
           + Z.of_nat (List.length (log_lines log)
                       - Z.to_nat (setup_end_idx log job + 1)))
    with (Z.of_nat (List.length (log_lines log))) in H by lia.
  exact H.
Qed.

Lemma located_steps log steps job :
  map step (located_patterns log steps job) = steps.
Proof.
  unfold located_patterns. rewrite locate_steps, map_map. simpl.
  apply map_id.
Qed.

Lemma filter_all {A} (f : A -> bool) l :
  Forall (fun x => f x = true) l -> filter f l = l.
Proof.
  induction 1 as [|x l Hx _ IH]; simpl; [reflexivity|].
  now rewrite Hx, IH.
Qed.

Lemma filter_none {A} (f : A -> bool) l :
  Forall (fun x => f x = false) l -> filter f l = [].
Proof.
  induction 1 as [|x l Hx _ IH]; simpl; [reflexivity|].
  now rewrite Hx, IH.
Qed.

Lemma filter_split_perm {A} (f : A -> bool) l :
  Permutation (filter f l ++ filter (fun x => negb (f x)) l) l.
Proof.
  induction l as [|x l IH]; simpl; [constructor|].
  destruct (f x); simpl.
  - now apply perm_skip.
  - apply Permutation_sym, Permutation_cons_app, Permutation_sym, IH.
Qed.

Lemma sorted_found_perm log steps job :
  Permutation (sorted_found log steps job)
    (filter found (located_patterns log steps job)).
Proof. apply sort_by_start_perm. Qed.

Lemma sorted_found_strict log steps job :
  StronglySorted start_lt (sorted_found log steps job).
Proof.
  apply sorted_strict; [apply sort_by_start_sorted|].
  destruct (located_inv log steps job) as (_ & Hnd & _).
  eapply Permutation_NoDup; [|exact Hnd].
  apply Permutation_map, Permutation_sym, sorted_found_perm.
Qed.

Lemma sorted_found_range log steps job :
  Forall (fun p => setup_end_idx log job + 1 <= start_idx p
                   < Z.of_nat (List.length (log_lines log)))
    (sorted_found log steps job).
Proof.
  destruct (located_inv log steps job) as (_ & _ & Hr).
  unfold found_starts in Hr. rewrite Forall_map in Hr.
  eapply Permutation_Forall; [apply Permutation_sym, sorted_found_perm|].
  exact Hr.
Qed.

Lemma located_placed log steps job p :
  In p (located_patterns log steps job) ->
  placed (log_lines log) (setup_end_idx log job + 1)
    (Z.of_nat (List.length (log_lines log))) p.
Proof.
  destruct (located_inv log steps job) as (Hp & _ & _).
  rewrite Forall_forall in Hp. apply Hp.
Qed.

Lemma placed_pattern all lo hi p :
  placed all lo hi p -> pattern p = get_step_identifier (step p).
Proof.
  intros [H|(i & l & H & _)]; rewrite H at 1; reflexivity.
Qed.

Lemma placed_not_found all lo hi p :
  placed all lo hi p -> found p = false -> p = new_pattern (step p).
Proof.
  intros [H|(i & l & H & _)] Hf; [exact H|].
  rewrite H in Hf. discriminate.
Qed.

Lemma found_records_origin lines fps :
  map origin (found_records lines fps) = map origin_of_pattern fps.
Proof.
  induction fps as [|p fps IH]; simpl; [reflexivity|now rewrite IH].
Qed.

Lemma located_origin log steps job :
  map origin_of_pattern (located_patterns log steps job)
  = map origin_of_step steps.
Proof.
  rewrite <- (located_steps log steps job) at 2. rewrite map_map.
  apply map_ext_in. intros p Hp.
  unfold origin_of_pattern, origin_of_step.
  now rewrite (placed_pattern _ _ _ _ (located_placed _ _ _ _ Hp)).
Qed.

(** ** The claims *)

(** C1.  Whatever the log and the job name, [parse_log_by_steps] returns the
    setup record followed by one action record per step specification: the
    result has one element more than [job_steps], and the action records
    carry, up to their order, exactly the specifications of [job_steps]
    (their [run], [uses], [with], [env], identifier and workflow code). *)
Theorem parse_emits_one_record_per_step log steps job :
  List.length (parse_log_by_steps log steps job) = S (List.length steps)
  /\ exists first rest,
       parse_log_by_steps log steps job = first :: rest
       /\ type first = setup
       /\ Forall (fun r => type r = action) rest
       /\ Permutation (map origin rest) (map origin_of_step steps).
Proof.
  rewrite parse_shape.
  assert (Hperm : Permutation
            (sorted_found log steps job
             ++ filter not_found (located_patterns log steps job))
            (located_patterns log steps job)).
  { eapply perm_trans; [|apply (filter_split_perm found)].
    apply Permutation_app_tail, sorted_found_perm. }
  split.
  - simpl. f_equal.
    rewrite length_app, found_records_length, length_map, <- length_app.
    rewrite (Permutation_length Hperm).
    rewrite <- (located_steps log steps job) at 2. now rewrite length_map.
  - eexists _, _. split; [reflexivity|]. split; [reflexivity|]. split.
    + apply Forall_app. split.
      * eapply Forall_impl; [|apply found_records_action]. now intros r [H _].
      * apply Forall_forall. intros r Hr. apply in_map_iff in Hr.
        destruct Hr as [p [<- _]]. reflexivity.
    + rewrite map_app, found_records_origin, map_map.
      change (map (fun x => origin (unfound_step_data x)))
        with (map origin_of_pattern).
      rewrite <- map_app, <- (located_origin log steps job).
      now apply Permutation_map.
Qed.

Lemma located_records_parse log steps job :
  located_records (parse_log_by_steps log steps job)
  = found_records (log_lines log) (sorted_found log steps job).
Proof.
  rewrite parse_shape. unfold located_records. simpl.
  rewrite filter_app, filter_all, filter_none, app_nil_r; auto.
  - apply Forall_forall. intros r Hr. apply in_map_iff in Hr.
    destruct Hr as [p [<- _]]. reflexivity.
  - pose proof (sorted_found_range log steps job) as Hr.
    pose proof (setup_end_idx_range log job) as Hi.
    induction Hr as [|p fps Hp _ IH]; simpl; constructor; auto.
    unfold is_located. simpl.
    destruct (Z.eqb_spec (start_idx p) (-1)); [lia|reflexivity].
Qed.

(** C3.  The records of the located steps appear in the result in strictly
    ascending order of [start_line]; in that order each [end_line] is the
    next record's [start_line] minus 1, and the last [end_line] is the
    number of log lines minus 1. *)
Theorem located_ranges_contiguous log steps job :
  contiguous (Z.of_nat (List.length (log_lines log)))
    (located_records (parse_log_by_steps log steps job)).
Proof.
  rewrite located_records_parse.
  apply found_records_contiguous, sorted_found_strict.
Qed.

Lemma filter_subseq {A} (f : A -> bool) l : subseq (filter f l) l.
Proof.
  induction l as [|x l IH]; simpl; [constructor|].
  destruct (f x); now constructor.
Qed.

Lemma subseq_map {A B} (g : A -> B) l1 l2 :
  subseq l1 l2 -> subseq (map g l1) (map g l2).
Proof. induction 1; simpl; now constructor. Qed.

Lemma unlocated_records log steps job :
  map unfound_step_data (filter not_found (located_patterns log steps job))
  = map unfound_record
      (map step (filter not_found (located_patterns log steps job))).
Proof.
  rewrite map_map. apply map_ext_in. intros p Hp.
  apply filter_In in Hp. destruct Hp as [Hin Hnf].
  unfold unfound_record.
  rewrite <- (placed_not_found _ _ _ _ (located_placed _ _ _ _ Hin)); auto.
  unfold not_found in Hnf. now destruct (found p).
Qed.

Lemma found_records_sorted lines fps :
  StronglySorted start_lt fps ->
  StronglySorted start_line_lt (found_records lines fps).
Proof.
  induction 1 as [|p fps Hs IH Hp]; simpl; constructor; auto.
  apply Forall_forall. intros r Hr.
  apply (in_map start_line) in Hr. rewrite found_records_starts in Hr.
  apply in_map_iff in Hr. destruct Hr as [q [Hq Hin]].
  rewrite Forall_forall in Hp. specialize (Hp q Hin).
  unfold start_line_lt, start_lt in *. simpl. lia.
Qed.

Lemma filter_positions {A} (f : A -> bool) (l : list A) : forall pre,
  Forall2 (fun x j => nth_error (pre ++ l) j = Some x /\ f x = true)
    (filter f l)
    (filter (fun j => match nth_error (pre ++ l) j with
                      | Some x => f x
                      | None => false
                      end)
       (seq (List.length pre) (List.length l))).
Proof.
  induction l as [|a l IH]; intros pre; [constructor|].
  assert (Ha : nth_error (pre ++ a :: l) (List.length pre) = Some a).
  { rewrite nth_error_app2 by lia. now rewrite Nat.sub_diag. }
  specialize (IH (pre ++ [a])%list).
  rewrite <- app_assoc, length_app in IH. simpl in IH.
  rewrite Nat.add_1_r in IH.
  simpl List.length. simpl seq. simpl filter. rewrite Ha.
  destruct (f a) eqn:Hf.
  - constructor; [now split|exact IH].
  - exact IH.
Qed.

Lemma located_positions log steps job (f : Pattern -> bool) :
  Forall2 (fun p j => nth_error (located_patterns log steps job) j = Some p
                      /\ f p = true)
    (filter f (located_patterns log steps job))
    (filter (fun j => match nth_error (located_patterns log steps job) j with
                      | Some p => f p
                      | None => false
                      end)
       (seq 0 (List.length steps))).
Proof.
  pose proof (filter_positions f (located_patterns log steps job) []) as H.
  simpl in H.
  rewrite <- (located_steps log steps job) at 2. now rewrite length_map.
Qed.

Lemma located_length log steps job :
  List.length (located_patterns log steps job) = List.length steps.
Proof.
  rewrite <- (located_steps log steps job) at 2. now rewrite length_map.
Qed.

Lemma found_positions log steps job :
  filter (fun j => match nth_error (located_patterns log steps job) j with
                   | Some p => found p
                   | None => false
                   end) (seq 0 (List.length steps))
  = filter (step_found log steps job) (seq 0 (List.length steps)).
Proof. reflexivity. Qed.

Lemma not_found_positions log steps job :
  filter (fun j => match nth_error (located_patterns log steps job) j with
                   | Some p => not_found p
                   | None => false
                   end) (seq 0 (List.length steps))
  = filter (fun j => negb (step_found log steps job j))
      (seq 0 (List.length steps)).
Proof.
  apply filter_ext_in. intros j Hj. apply in_seq in Hj.
  unfold step_found.
  destruct (nth_error (located_patterns log steps job) j) eqn:E;
    [reflexivity|].
  apply nth_error_None in E. rewrite located_length in E. lia.
Qed.

Lemma nth_located_step log steps job j p :
  nth_error (located_patterns log steps job) j = Some p ->
  nth_error steps j = Some (step p).
Proof.
  intros H. rewrite <- (located_steps log steps job).
  rewrite nth_error_map, H. reflexivity.
Qed.

Lemma found_records_from log steps job lines fps js :
  Forall2 (fun p j => nth_error (located_patterns log steps job) j = Some p
                      /\ found p = true) fps js ->
  Forall2 (located_from log steps job) (found_records lines fps) js.
Proof.
  induction 1 as [|p j fps js [Hp Hf] _ IH]; simpl; constructor; auto.
  exists (step p). split; [exact (nth_located_step log steps job _ _ Hp)|]. split.
  - unfold origin, origin_of_step. simpl.
    rewrite (placed_pattern _ _ _ _
               (located_placed _ _ _ _ (nth_error_In _ _ Hp))).
    reflexivity.
  - unfold step_start_line. now rewrite Hp.
Qed.

Lemma unfound_records_from log steps job ups js :
  Forall2 (fun p j => nth_error (located_patterns log steps job) j = Some p
                      /\ not_found p = true) ups js ->
  Forall2 (unlocated_from steps) (map unfound_step_data ups) js.
Proof.
  induction 1 as [|p j ups js [Hp Hf] _ IH]; simpl; constructor; auto.
  exists (step p). split; [exact (nth_located_step log steps job _ _ Hp)|].
  unfold unfound_record.
  rewrite <- (placed_not_found _ _ _ _
                (located_placed _ _ _ _ (nth_error_In _ _ Hp))); auto.
  unfold not_found in Hf. now destruct (found p).
Qed.

(** C8.  The result is the setup record, which is the only record of type
    [setup] and starts at line 0, then the records of the located steps in
    strictly ascending order of the line where each was found (all after
    line 0, none with a note), then the records of the steps that were not
    located, in the order of [job_steps].  The located records are, one for
    one, the records of the positions of [job_steps] that the search
    marked, each starting at the line where its step was marked; the other
    records are, one for one and in ascending order of position, the
    not-found records of the positions that the search did not mark. *)
Theorem result_order log steps job :
  exists first located unlocated,
    parse_log_by_steps log steps job = (first :: located ++ unlocated)%list
    /\ type first = setup /\ start_line first = 0
    /\ Forall (fun r => type r = action) (located ++ unlocated)
    /\ StronglySorted start_line_lt located
    /\ Forall (fun r => 1 <= start_line r /\ note r = None) located
    /\ (exists positions,
          Permutation
            (filter (step_found log steps job) (seq 0 (List.length steps)))
            positions
          /\ Forall2 (located_from log steps job) located positions)
    /\ Forall2 (unlocated_from steps) unlocated
         (filter (fun j => negb (step_found log steps job j))
            (seq 0 (List.length steps)))
    /\ exists missing,
         subseq missing steps /\ unlocated = map unfound_record missing.
Proof.
  rewrite parse_shape.
  eexists _, _, _. split; [reflexivity|].
  split; [reflexivity|]. split; [reflexivity|].
  split; [|split; [|split; [|split; [|split]]]].
  - apply Forall_app. split.
    + eapply Forall_impl; [|apply found_records_action]. now intros r [H _].
    + apply Forall_forall. intros r Hr. apply in_map_iff in Hr.
      destruct Hr as [p [<- _]]. reflexivity.
  - apply found_records_sorted, sorted_found_strict.
  - pose proof (sorted_found_range log steps job) as Hr.
    pose proof (setup_end_idx_range log job) as Hi.
    induction Hr as [|p fps Hp _ IH]; simpl; constructor; auto.
    simpl. split; [lia|reflexivity].
  - pose proof (located_positions log steps job found) as Hpos.
    rewrite found_positions in Hpos.
    destruct (Permutation_Forall2
                (Permutation_sym (sorted_found_perm log steps job)) Hpos)
      as (positions & Hperm & Hall).
    exists positions. split; [exact Hperm|].
    now apply found_records_from.
  - rewrite <- (not_found_positions log steps job).
    apply (unfound_records_from log steps job), located_positions.
  - exists (map step (filter not_found (located_patterns log steps job))).
    split; [|apply unlocated_records].
    rewrite <- (located_steps log steps job) at 2.
    apply subseq_map, filter_subseq.
Qed.

Lemma nth_error_skipn_in {A} (l : list A) (lo n : nat) x :
  (lo <= n)%nat -> nth_error l n = Some x -> In x (skipn lo l).
Proof.
  intros Hle Hn.
  replace n with (lo + (n - lo))%nat in Hn by lia.
  rewrite <- nth_error_skipn in Hn. eapply nth_error_In, Hn.
Qed.

Lemma located_nth log steps job j st :
  nth_error steps j = Some st ->
  exists p, nth_error (located_patterns log steps job) j = Some p
            /\ step p = st
            /\ In p (located_patterns log steps job).
Proof.
  intros Hj. rewrite <- (located_steps log steps job) in Hj.
  rewrite nth_error_map in Hj.
  destruct (nth_error (located_patterns log steps job) j) as [p|] eqn:Hp;
    [|discriminate].
  exists p. injection Hj as <-. repeat split; auto.
  eapply nth_error_In, Hp.
Qed.

Lemma found_is_matched log steps job p :
  In p (located_patterns log steps job) -> found p = true ->
  exists line,
    setup_end_idx log job + 1 <= start_idx p
    /\ nth_error (log_lines log) (Z.to_nat (start_idx p)) = Some line
    /\ In line (remaining_lines log job)
    /\ Re.search_word (get_step_identifier (step p)) line = true.
Proof.
  intros Hin Hf.
  destruct (located_placed _ _ _ _ Hin) as [H|(i & line & H & Hi & Hn & Hs)].
  - rewrite H in Hf. discriminate.
  - assert (Hst : start_idx p = i) by (rewrite H; reflexivity).
    rewrite Hst. exists line. repeat split; auto; try lia.
    pose proof (setup_end_idx_range log job).
    eapply nth_error_skipn_in; [|exact Hn]. lia.
Qed.

Lemma never_matched_not_found log steps job j st :
  nth_error steps j = Some st -> never_matched log job st ->
  step_found log steps job j = false.
Proof.
  intros Hj Hnever. unfold step_found.
  destruct (located_nth log steps job j st Hj) as (p & -> & <- & Hin).
  destruct (found p) eqn:Hf; [|reflexivity].
  destruct (found_is_matched _ _ _ _ Hin Hf) as (line & _ & _ & Hl & Hs).
  rewrite (Hnever line Hl) in Hs. discriminate.
Qed.

Lemma not_found_emitted log steps job j st :
  nth_error steps j = Some st -> step_found log steps job j = false ->
  In (unfound_record st) (parse_log_by_steps log steps job).
Proof.
  intros Hj Hnf. unfold step_found in Hnf.
  destruct (located_nth log steps job j st Hj) as (p & Hp & <- & Hin).
  rewrite Hp in Hnf.
  rewrite parse_shape. right. apply in_or_app. right.
  rewrite unlocated_records. apply in_map, in_map.
  apply filter_In. split; [exact Hin|]. unfold not_found. now rewrite Hnf.
Qed.

(** C7.  A step that the search did not mark, which is the case of every
    step whose identifier matches none of the lines read, has its record in
    the result: [start_line] and [end_line] are -1, [log_content] is empty
    and the note is set.  The function is total, so nothing is raised, and
    the lines are read once. *)
Theorem unfound_step_reported log steps job j st :
  nth_error steps j = Some st ->
  (never_matched log job st -> step_found log steps job j = false)
  /\ (step_found log steps job j = false ->
      exists r,
        In r (parse_log_by_steps log steps job)
        /\ type r = action
        /\ origin r = origin_of_step st
        /\ start_line r = -1 /\ end_line r = -1
        /\ log_content r = EmptyString
        /\ note r = Some "Step not found in log").
Proof.
  intros Hj. split.
  - now apply never_matched_not_found.
  - intros Hnf. exists (unfound_record st).
    split; [eapply not_found_emitted; eauto|].
    repeat split.
Qed.

Lemma locate_fold lines : forall i ps,
  locate i lines ps
  = fold_left (fun acc il => scan_patterns (fst il) (snd il) acc)
      (enumerate i lines) ps.
Proof.
  induction lines as [|line rest IH]; intros i ps; simpl; [reflexivity|].
  apply IH.
Qed.

Lemma located_patterns_fold log steps job :
  located_patterns log steps job
  = fold_left (fun acc il => scan_patterns (fst il) (snd il) acc)
      (enumerate (setup_end_idx log job + 1) (remaining_lines log job))
      (map new_pattern steps).
Proof.
  unfold located_patterns. fold (setup_end_idx log job).
  pose proof (setup_end_idx_range log job).
  rewrite slice_to_end by lia. apply locate_fold.
Qed.

(** C6.  The search is one left-to-right fold over the lines after the setup
    boundary, numbered from [setup_end_idx + 1].  A line either changes
    nothing, when every pattern is found already or does not match it, or
    marks exactly one pattern: the first of the list that is not found yet
    and whose identifier matches the line; that pattern gets the index of
    the line as [start_idx].  At the end a found pattern holds the index of
    a line it matches, a pattern that is not found holds -1, and a pattern
    whose identifier matches none of the lines read is not found. *)
Theorem locator_single_pass log steps job :
  located_patterns log steps job
  = fold_left (fun acc il => scan_patterns (fst il) (snd il) acc)
      (enumerate (setup_end_idx log job + 1) (remaining_lines log job))
      (map new_pattern steps)
  /\ (forall i line ps,
        (none_takes line ps /\ scan_patterns i line ps = ps)
        \/ exists before p after,
             ps = (before ++ p :: after)%list
             /\ none_takes line before
             /\ found p = false
             /\ Re.search_word (pattern p) line = true
             /\ scan_patterns i line ps
                = (before ++ mark_found p i :: after)%list
             /\ found (mark_found p i) = true
             /\ start_idx (mark_found p i) = i)
  /\ (forall p, In p (located_patterns log steps job) ->
        if found p
        then exists line,
               setup_end_idx log job + 1 <= start_idx p
               /\ nth_error (log_lines log) (Z.to_nat (start_idx p)) = Some line
               /\ Re.search_word (pattern p) line = true
        else start_idx p = -1)
  /\ (forall p, In p (located_patterns log steps job) ->
        (forall line, In line (remaining_lines log job) ->
           Re.search_word (pattern p) line = false) ->
        found p = false).
Proof.
  split; [apply located_patterns_fold|].
  split; [|split].
  - intros i line ps.
    destruct (scan_patterns_cases i line ps)
      as [H|(b & p & a & H1 & H2 & H3 & H4 & H5)]; [now left|].
    right. exists b, p, a. repeat split; auto.
  - intros p Hin.
    pose proof (placed_pattern _ _ _ _ (located_placed _ _ _ _ Hin)) as Hpat.
    destruct (found p) eqn:Hf.
    + destruct (found_is_matched _ _ _ _ Hin Hf) as (line & H1 & H2 & _ & H4).
      exists line. rewrite Hpat. auto.
    + rewrite (placed_not_found _ _ _ _ (located_placed _ _ _ _ Hin) Hf).
      reflexivity.
  - intros p Hin Hnone.
    pose proof (placed_pattern _ _ _ _ (located_placed _ _ _ _ Hin)) as Hpat.
    destruct (found p) eqn:Hf; [|reflexivity].
    destruct (found_is_matched _ _ _ _ Hin Hf) as (line & _ & _ & Hl & Hs).
    rewrite <- Hpat, (Hnone line Hl) in Hs. discriminate.
Qed.

(** ** Lines and their join *)

Lemma join_split s : Str.join_nl (Str.split_nl s) = s.
Proof.
  induction s as [|c s IH]; [reflexivity|].
  simpl Str.split_nl.
  pose proof (split_nl_length s) as Hlen.
  destruct (Str.split_nl s) as [|h t] eqn:Hs; [simpl in Hlen; lia|].
  unfold Str.join_nl in *.
  destruct (Ascii.eqb_spec c LF) as [->|Hc].
  - change (concat (String LF EmptyString) (EmptyString :: h :: t))
      with (String LF (concat (String LF EmptyString) (h :: t))).
    now rewrite IH.
  - destruct t as [|h' t]; simpl in IH |- *; now rewrite IH.
Qed.

Lemma found_records_spans lines lo fps :
  0 <= lo ->
  StronglySorted start_lt fps ->
  Forall (fun p => lo <= start_idx p < Z.of_nat (List.length lines)) fps ->
  Forall (fun r =>
            lo <= start_line r <= end_line r
            /\ end_line r < Z.of_nat (List.length lines)
            /\ log_content r
               = Str.join_nl
                   (firstn (Z.to_nat (end_line r - start_line r + 1))
                      (skipn (Z.to_nat (start_line r)) lines)))
    (found_records lines fps).
Proof.
  intros Hlo Hs. induction Hs as [|p fps Hs IH Hp]; intros Hr; simpl.
  - constructor.
  - inversion Hr as [|? ? Hrp Hrf]; subst.
    constructor; [|now apply IH].
    simpl.
    assert (He : start_idx p
                 <= match fps with
                    | [] => Z.of_nat (List.length lines) - 1
                    | q :: _ => start_idx q - 1
                    end < Z.of_nat (List.length lines)).
    { destruct fps as [|q fps]; [lia|].
      inversion Hp; subst. inversion Hrf; subst.
      unfold start_lt in *. lia. }
    repeat split; try lia.
    rewrite slice_inside by lia. do 2 f_equal. lia.
Qed.

Lemma found_records_in lines fps p :
  In p fps -> exists e, In (found_step_data lines p e) (found_records lines fps).
Proof.
  induction fps as [|q fps IH]; simpl; [tauto|].
  intros [->|Hin].
  - eexists. left. reflexivity.
  - destruct (IH Hin) as [e He]. exists e. now right.
Qed.

Lemma action_records_span log steps job :
  Forall (fun r => unresolved r
                   \/ spans_after (log_lines log) (setup_end_idx log job) r)
    (found_records (log_lines log) (sorted_found log steps job)
     ++ map unfound_step_data
          (filter not_found (located_patterns log steps job))).
Proof.
  pose proof (setup_end_idx_range log job) as Hi.
  apply Forall_app. split.
  - eapply Forall_impl;
      [|apply (found_records_spans _ (setup_end_idx log job + 1));
        [lia|apply sorted_found_strict|apply sorted_found_range]].
    intros r H. right. exact H.
  - apply Forall_forall. intros r Hr. apply in_map_iff in Hr.
    destruct Hr as [p [<- _]]. left. repeat split.
Qed.

(** C9.  When the sentinel first occurs in line [k], with [k >= 1], the
    setup record has [end_line = k] and its [log_content] joins the lines 0
    to [k - 1]; every other record is unresolved with an empty
    [log_content], or covers the lines [start_line] to [end_line] with
    [k + 1 <= start_line], so line [k] is in the content of no record. *)
Theorem sentinel_line_in_no_record log steps job k :
  (1 <= k)%nat ->
  first_sentinel_at (setup_end_pattern job) (log_lines log) k ->
  exists first rest,
    parse_log_by_steps log steps job = first :: rest
    /\ type first = setup
    /\ start_line first = 0
    /\ end_line first = Z.of_nat k
    /\ log_content first = Str.join_nl (firstn k (log_lines log))
    /\ Forall (fun r => unresolved r
                        \/ spans_after (log_lines log) (Z.of_nat k) r) rest.
Proof.
  intros _ Hk.
  pose proof (scan_setup_present _ 0 _ _ Hk) as Hscan.
  assert (Hidx : setup_end_idx log job = Z.of_nat k)
    by (unfold setup_end_idx; now rewrite Hscan).
  assert (Hlog : setup_log log job = firstn k (log_lines log))
    by (unfold setup_log; now rewrite Hscan).
  rewrite parse_shape. eexists _, _. split; [reflexivity|].
  split; [reflexivity|]. split; [reflexivity|].
  split; [exact Hidx|]. split; [simpl; now rewrite Hlog|].
  rewrite <- Hidx. apply action_records_span.
Qed.

(** C10.  For a step without a [name], the record of the step is named
    after [uses] when the step was located ("Run " followed by the [uses]
    value, or by nothing when [uses] is absent too), and "Unnamed Step"
    when it was not. *)
Theorem unnamed_step_name log steps job j st :
  nth_error steps j = Some st ->
  s_name st = None ->
  exists r,
    In r (parse_log_by_steps log steps job)
    /\ type r = action
    /\ origin r = origin_of_step st
    /\ (if step_found log steps job j
        then 1 <= start_line r /\ note r = None
             /\ name r = Run_ ++ get (s_uses st) EmptyString
        else start_line r = -1
             /\ note r = Some "Step not found in log"
             /\ name r = "Unnamed Step").
Proof.
  intros Hj Hname.
  destruct (step_found log steps job j) eqn:Hf.
  - unfold step_found in Hf.
    destruct (located_nth log steps job j st Hj) as (p & Hp & <- & Hin).
    rewrite Hp in Hf.
    assert (Hs : In p (sorted_found log steps job)).
    { eapply Permutation_in;
        [apply Permutation_sym, sorted_found_perm|].
      apply filter_In. now split. }
    destruct (found_records_in (log_lines log) _ _ Hs) as [e He].
    exists (found_step_data (log_lines log) p e).
    split; [rewrite parse_shape; right; apply in_or_app; now left|].
    split; [reflexivity|]. split.
    + unfold origin, origin_of_step. simpl.
      now rewrite (placed_pattern _ _ _ _ (located_placed _ _ _ _ Hin)).
    + simpl. unfold name_of_found. rewrite Hname. simpl.
      repeat split.
      pose proof (sorted_found_range log steps job) as Hr.
      rewrite Forall_forall in Hr. specialize (Hr p Hs).
      pose proof (setup_end_idx_range log job). lia.
  - exists (unfound_record st).
    split; [eapply not_found_emitted; eauto|].
    unfold unfound_record. simpl. rewrite Hname. repeat split.
Qed.

(** C2, as the code has it.  When no line contains the sentinel, the setup
    record holds the whole normalized log and ends at line 0, and the search
    reads the lines from index 1 on: no step is located at line 0, and every
    step whose identifier matches none of the lines from index 1 on is
    reported unresolved. *)
Theorem sentinel_absent_setup_absorbs_log log steps job :
  no_sentinel (setup_end_pattern job) (log_lines log) ->
  exists first rest,
    parse_log_by_steps log steps job = first :: rest
    /\ type first = setup
    /\ start_line first = 0 /\ end_line first = 0
    /\ log_content first = clean log
    /\ remaining_lines log job = skipn 1 (log_lines log)
    /\ Forall (fun r => unresolved r \/ spans_after (log_lines log) 0 r) rest
    /\ forall j st,
         nth_error steps j = Some st ->
         (forall line, In line (skipn 1 (log_lines log)) ->
            Re.search_word (get_step_identifier st) line = false) ->
         In (unfound_record st) rest.
Proof.
  intros Habs.
  pose proof (scan_setup_absent _ 0 _ Habs) as Hscan.
  assert (Hidx : setup_end_idx log job = 0)
    by (unfold setup_end_idx; now rewrite Hscan).
  assert (Hlog : setup_log log job = log_lines log)
    by (unfold setup_log; now rewrite Hscan).
  assert (Hrem : remaining_lines log job = skipn 1 (log_lines log))
    by (unfold remaining_lines; now rewrite Hidx).
  pose proof (parse_shape log steps job) as Hshape.
  rewrite Hshape. eexists _, _. split; [reflexivity|].
  split; [reflexivity|]. split; [reflexivity|]. split; [exact Hidx|].
  split; [simpl; rewrite Hlog; apply join_split|].
  split; [exact Hrem|]. split.
  - rewrite <- Hidx. apply action_records_span.
  - intros j st Hj Hnone.
    assert (Hnf : step_found log steps job j = false).
    { eapply never_matched_not_found; [exact Hj|].
      unfold never_matched. now rewrite Hrem. }
    pose proof (not_found_emitted log steps job j st Hj Hnf) as Hin.
    rewrite Hshape in Hin. destruct Hin as [Hin|Hin]; [discriminate|exact Hin].
Qed.

(** ** The identifier of a step *)

Lemma splitlines_first c s :
  exists rest,
    Str.splitlines_from false (String c s) = Str.first_line (String c s) :: rest.
Proof.
  revert c. induction s as [|c' s IH]; intros c; simpl.
  - destruct (is_linebreak c); eexists; reflexivity.
  - destruct (is_linebreak c); [eexists; reflexivity|].
    destruct (IH c') as [rest Hrest].
    simpl in Hrest. rewrite Hrest. eexists. reflexivity.
Qed.

Lemma lstrip_blank s : Str.all_space s = true -> Str.lstrip s = EmptyString.
Proof.
  induction s as [|c s IH]; simpl; [reflexivity|].
  destruct (is_space c); simpl; [exact IH|discriminate].
Qed.

Lemma strip_blank s : Str.all_space s = true -> Str.strip s = EmptyString.
Proof. intros H. unfold Str.strip. now rewrite lstrip_blank. Qed.

(** C5, as the code has it.  The identifier follows the chain run > uses >
    name > placeholder.  With a [run] that is not the empty string it is
    "Run " followed by the first line of the script, the leading [|]
    characters and then the surrounding whitespace removed; that is "Run "
    alone when nothing else is left of the first line.  With an empty [run]
    it is the placeholder.  Without [run] it is "Run " followed by [uses],
    else by [name], else the placeholder. *)
Theorem identifier_priority_chain st :
  (forall raw, s_run st = Some raw -> raw <> EmptyString ->
     get_step_identifier st
     = Run_ ++ Str.strip (Str.lstrip_bar (Str.first_line raw)))
  /\ (forall raw, s_run st = Some raw -> raw <> EmptyString ->
        Str.all_space (Str.lstrip_bar (Str.first_line raw)) = true ->
        get_step_identifier st = Run_)
  /\ (s_run st = Some EmptyString -> get_step_identifier st = unknown_step)
  /\ (s_run st = None -> forall u, s_uses st = Some u ->
        get_step_identifier st = Run_ ++ u)
  /\ (s_run st = None -> s_uses st = None -> forall n, s_name st = Some n ->
        get_step_identifier st = Run_ ++ n)
  /\ (s_run st = None -> s_uses st = None -> s_name st = None ->
        get_step_identifier st = unknown_step).
Proof.
  assert (Hrun : forall raw, s_run st = Some raw -> raw <> EmptyString ->
            get_step_identifier st
            = Run_ ++ Str.strip (Str.lstrip_bar (Str.first_line raw))).
  { intros raw Hr Hne. unfold get_step_identifier, Str.splitlines.
    rewrite Hr. destruct raw as [|c s]; [congruence|].
    destruct (splitlines_first c s) as [rest ->]. reflexivity. }
  unfold get_step_identifier.
  split; [exact Hrun|]. split; [|split; [|split; [|split]]].
  - intros raw Hr Hne Hblank. fold (get_step_identifier st).
    rewrite (Hrun raw Hr Hne), strip_blank by exact Hblank. reflexivity.
  - intros ->. reflexivity.
  - intros -> u ->. reflexivity.
  - intros -> -> n ->. reflexivity.
  - intros -> -> ->. reflexivity.
Qed.

(** A [run] of one blank is present and blank, and its identifier is "Run ",
    not the placeholder. *)
Lemma blank_run_is_not_placeholder :
  s_run (run_step " ") = Some " "
  /\ Str.all_space " " = true
  /\ get_step_identifier (run_step " ") = "Run "
  /\ get_step_identifier (run_step " ") <> unknown_step.
Proof. repeat split. discriminate. Qed.

Lemma identifier_priority_chain_witness :
  get_step_identifier (run_step " ") = Run_
  /\ get_step_identifier (run_step "| echo hi") = "Run echo hi"
  /\ get_step_identifier (uses_step "actions/checkout@v4")
     = "Run actions/checkout@v4".
Proof.
  split; [|split].
  - apply (proj1 (proj2 (identifier_priority_chain (run_step " "))) " ").
    + reflexivity.
    + discriminate.
    + reflexivity.
  - apply (proj1 (identifier_priority_chain (run_step "| echo hi")) "| echo hi").
    + reflexivity.
    + discriminate.
  - apply (proj1 (proj2 (proj2 (proj2
             (identifier_priority_chain (uses_step "actions/checkout@v4")))))).
    + reflexivity.
    + reflexivity.
Defined.

(** ** Word boundaries *)

(** C4, as the code has it.  The identifier "Run test" at the head of a line
    is a match exactly when the character that follows it is not a word
    character.  A letter, a digit or an underscore after it prevents the
    match; a hyphen is not a word character, so "Run test" matches the line
    "Run test-unit". *)
Theorem boundary_after_identifier c rest :
  Re.match_here None "Run test" ("Run test" ++ String c rest)
  = negb (is_word c)
  /\ (is_word c = false ->
      Re.search_word "Run test" ("Run test" ++ String c rest) = true)
  /\ (is_word c = true ->
      Re.search_word "Run test" ("Run test" ++ String c EmptyString) = false).
Proof.
  assert (H : Re.match_here None "Run test" ("Run test" ++ String c rest)
              = negb (is_word c)).
  { unfold Re.match_here. simpl. unfold Re.boundary. simpl.
    destruct (is_word c); reflexivity. }
  split; [exact H|]. split.
  - intros Hc. unfold Re.search_word.
    change (Re.search_from None "Run test" ("Run test" ++ String c rest))
      with (Re.match_here None "Run test" ("Run test" ++ String c rest)
            || Re.search_from (Some "R"%char) "Run test"
                 ("un test" ++ String c rest)).
    now rewrite H, Hc.
  - destruct c as [[] [] [] [] [] [] [] []]; vm_compute; congruence.
Qed.

Lemma boundary_after_identifier_witness :
  Re.search_word "Run test" "Run test-unit" = true
  /\ Re.search_word "Run test" "Run tests" = false.
Proof.
  split.
  - apply (proj1 (proj2 (boundary_after_identifier "-" "unit"))).
    reflexivity.
  - apply (proj2 (proj2 (boundary_after_identifier "s" EmptyString))).
    reflexivity.
Defined.

(** The identifiers "Run test" and "Run test-unit": the line "Run test-unit"
    is a match of "Run test", and the search gives that line to the step
    whose identifier is "Run test". *)
Lemma hyphen_is_a_boundary :
  get_step_identifier (run_step "test") = "Run test"
  /\ get_step_identifier (run_step "test-unit") = "Run test-unit"
  /\ Re.search_word "Run test" "Run test-unit" = true
  /\ map (fun r => (pattern_matched r, start_line r))
       (parse_log_by_steps
          ("Complete job name: ci" ++ nl ++ "Run test-unit")
          [run_step "test"; run_step "test-unit"] "ci")
     = [(None, 0); (Some "Run test", 1); (Some "Run test-unit", -1)].
Proof. repeat split. Qed.

(** ** Concrete logs *)

Lemma log_without_sentinel_absent :
  no_sentinel (setup_end_pattern "build") (log_lines log_without_sentinel).
Proof.
  intros line Hin. vm_compute in Hin.
  destruct Hin as [<-|[<-|[]]]; reflexivity.
Defined.

(** The sentinel is in no line of the log, the setup record holds the two
    lines, and the step is located at line 1 all the same. *)
Lemma sentinel_absent_step_located :
  no_sentinel (setup_end_pattern "build") (log_lines log_without_sentinel)
  /\ step_found log_without_sentinel [run_step "echo hi"] "build" 0 = true
  /\ map (fun r => (type r, start_line r, end_line r, log_content r, note r))
       (parse_log_by_steps log_without_sentinel [run_step "echo hi"] "build")
     = [(setup, 0, 0, "boot" ++ nl ++ "Run echo hi", None);
        (action, 1, 1, "Run echo hi", None)].
Proof.
  split; [apply log_without_sentinel_absent|].
  split; vm_compute; reflexivity.
Qed.

Lemma sentinel_absent_setup_absorbs_log_witness :
  exists first rest,
    parse_log_by_steps log_without_sentinel
      [uses_step "actions/checkout@v4"] "build" = first :: rest
    /\ log_content first = clean log_without_sentinel
    /\ In (unfound_record (uses_step "actions/checkout@v4")) rest.
Proof.
  destruct (sentinel_absent_setup_absorbs_log log_without_sentinel
              [uses_step "actions/checkout@v4"] "build"
              log_without_sentinel_absent)
    as (first & rest & Hp & _ & _ & _ & Hc & _ & _ & Hu).
  exists first, rest. split; [exact Hp|]. split; [exact Hc|].
  apply (Hu 0%nat).
  - reflexivity.
  - intros line Hin. vm_compute in Hin.
    destruct Hin as [<-|[]]. reflexivity.
Defined.

Lemma locator_single_pass_witness :
  In (new_pattern (uses_step "actions/checkout@v4"))
    (located_patterns log_with_sentinel
       [uses_step "actions/checkout@v4"] "build")
  /\ found (new_pattern (uses_step "actions/checkout@v4")) = false.
Proof.
  assert (Hin : In (new_pattern (uses_step "actions/checkout@v4"))
                  (located_patterns log_with_sentinel
                     [uses_step "actions/checkout@v4"] "build")).
  { vm_compute. left. reflexivity. }
  split; [exact Hin|].
  apply (proj2 (proj2 (proj2 (locator_single_pass log_with_sentinel
                                [uses_step "actions/checkout@v4"] "build")))
           _ Hin).
  intros line Hl. vm_compute in Hl.
  destruct Hl as [<-|[<-|[]]]; reflexivity.
Defined.

Lemma unfound_step_reported_witness :
  exists r,
    In r (parse_log_by_steps log_with_sentinel
            [uses_step "actions/checkout@v4"] "build")
    /\ type r = action
    /\ origin r = origin_of_step (uses_step "actions/checkout@v4")
    /\ start_line r = -1 /\ end_line r = -1
    /\ log_content r = EmptyString
    /\ note r = Some "Step not found in log".
Proof.
  apply (proj2 (unfound_step_reported log_with_sentinel
                  [uses_step "actions/checkout@v4"] "build" 0
                  (uses_step "actions/checkout@v4") eq_refl)).
  vm_compute. reflexivity.
Defined.

Lemma log_with_sentinel_at_1 :
  first_sentinel_at (setup_end_pattern "build")
    (log_lines log_with_sentinel) 1.
Proof.
  split.
  - eexists. split; vm_compute; reflexivity.
  - intros j line Hj Hn. destruct j as [|j]; [|lia].
    vm_compute in Hn. injection Hn as <-. reflexivity.
Defined.

Lemma sentinel_line_in_no_record_witness :
  exists first rest,
    parse_log_by_steps log_with_sentinel [run_step "echo hi"] "build"
    = first :: rest
    /\ type first = setup
    /\ start_line first = 0
    /\ end_line first = 1
    /\ log_content first = Str.join_nl (firstn 1 (log_lines log_with_sentinel))
    /\ Forall (fun r => unresolved r
                        \/ spans_after (log_lines log_with_sentinel) 1 r) rest.
Proof.
  apply (sentinel_line_in_no_record log_with_sentinel [run_step "echo hi"]
           "build" 1).
  - lia.
  - apply log_with_sentinel_at_1.
Defined.

Lemma unnamed_step_name_witness :
  (exists r,
     In r (parse_log_by_steps log_with_sentinel
             [uses_step "actions/checkout@v4"] "build")
     /\ type r = action
     /\ origin r = origin_of_step (uses_step "actions/checkout@v4")
     /\ (if step_found log_with_sentinel
              [uses_step "actions/checkout@v4"] "build" 0
         then 1 <= start_line r /\ note r = None
              /\ name r = Run_ ++ get (s_uses (uses_step "actions/checkout@v4"))
                                    EmptyString
         else start_line r = -1
              /\ note r = Some "Step not found in log"
              /\ name r = "Unnamed Step")).
Proof.
  apply (unnamed_step_name log_with_sentinel
           [uses_step "actions/checkout@v4"] "build" 0
           (uses_step "actions/checkout@v4")); reflexivity.
Defined.

Example unnamed_located_ex :
  map name
    (parse_log_by_steps
       ("Complete job name: build" ++ nl ++ "Run actions/checkout@v4")
       [uses_step "actions/checkout@v4"; uses_step "actions/cache@v4";
        mkStep None None None None None] "build")
  = ["Set up job"; "Run actions/checkout@v4"; "Unnamed Step"; "Unnamed Step"].
Proof. vm_compute. reflexivity. Qed.


(** * Further properties of the scraper *)

(** ** The normalizer *)

Lemma subseq_refl {A} (l : list A) : subseq l l.
Proof. induction l; now constructor. Qed.

Lemma subseq_trans {A} (l1 l2 l3 : list A) :
  subseq l1 l2 -> subseq l2 l3 -> subseq l1 l3.
Proof.
  intros H12 H23. revert l1 H12.
  induction H23 as [|x l2 l3 H IH|x l2 l3 H IH]; intros l1 H12.
  - exact H12.
  - constructor. now apply IH.
  - inversion H12; subst.
    + constructor. now apply IH.
    + apply subseq_keep. now apply IH.
Qed.

Lemma subseq_length {A} (l1 l2 : list A) :
  subseq l1 l2 -> (List.length l1 <= List.length l2)%nat.
Proof. induction 1; simpl; lia. Qed.

Lemma sub_empty_subseq f s : forall k,
  subseq (list_ascii_of_string (Re.sub_empty f k s)) (list_ascii_of_string s).
Proof.
  induction s as [|c s IH]; intros k; simpl.
  - constructor.
  - destruct k as [|k]; [|constructor; apply IH].
    destruct (f (String c s)) as [[|n]|]; constructor; apply IH.
Qed.

Lemma string_length_list s :
  String.length s = List.length (list_ascii_of_string s).
Proof. induction s; simpl; congruence. Qed.

(** X1.  The two substitutions only delete characters: the cleaned log is
    the raw log with some characters left out, in the same order, so it is
    never longer than the raw log. *)
Theorem clean_only_deletes log :
  subseq (list_ascii_of_string (clean log)) (list_ascii_of_string log)
  /\ (String.length (clean log) <= String.length log)%nat.
Proof.
  assert (H : subseq (list_ascii_of_string (clean log))
                (list_ascii_of_string log)).
  { unfold clean. eapply subseq_trans; apply sub_empty_subseq. }
  split; [exact H|].
  rewrite !string_length_list. now apply subseq_length.
Qed.

Lemma sub_empty_no_match f s :
  (forall c, mem_char c s = true -> forall t, f (String c t) = None) ->
  Re.sub_empty f 0 s = s.
Proof.
  intros Hnone. induction s as [|c s IH]; simpl; [reflexivity|].
  rewrite (Hnone c); [|simpl; now rewrite Ascii.eqb_refl].
  f_equal. apply IH. intros c' Hc' t. apply Hnone. simpl.
  rewrite Hc'. apply orb_true_r.
Qed.

Lemma ansi_len_head c t : c <> ESC -> Re.ansi_len (String c t) = None.
Proof.
  intros Hc. unfold Re.ansi_len.
  destruct t as [|b t]; [reflexivity|].
  destruct (Ascii.eqb_spec c ESC) as [->|_]; [congruence|].
  destruct b as [[] [] [] [] [] [] [] []]; reflexivity.
Qed.

Lemma marker_len_head c t : c <> "#"%char -> Re.marker_len (String c t) = None.
Proof.
  intros Hc. unfold Re.marker_len.
  destruct c as [[] [] [] [] [] [] [] []]; try reflexivity. congruence.
Qed.

Lemma mem_char_false_neq c s c' :
  mem_char c s = false -> mem_char c' s = true -> c' <> c.
Proof. intros H1 H2 ->. congruence. Qed.

(** X2.  A raw log with no escape character and no [#] is left as it is by
    the normalizer, so [log_lines] is the raw log split at its line
    feeds. *)
Theorem clean_plain_log log :
  mem_char ESC log = false ->
  mem_char "#" log = false ->
  clean log = log /\ log_lines log = Str.split_nl log.
Proof.
  intros Hesc Hhash.
  assert (H : clean log = log).
  { unfold clean.
    rewrite (sub_empty_no_match Re.ansi_len log).
    - apply sub_empty_no_match.
      intros c Hc t. apply marker_len_head.
      eapply mem_char_false_neq; eauto.
    - intros c Hc t. apply ansi_len_head.
      eapply mem_char_false_neq; eauto. }
  split; [exact H|]. unfold log_lines. now rewrite H.
Qed.

Lemma clean_plain_log_witness :
  clean log_without_sentinel = log_without_sentinel
  /\ log_lines log_without_sentinel = Str.split_nl log_without_sentinel.
Proof.
  apply (clean_plain_log log_without_sentinel); reflexivity.
Defined.

(** ** The ranges of the located steps *)

Lemma join_nl_cons x l :
  l <> [] -> Str.join_nl (x :: l) = x ++ nl ++ Str.join_nl l.
Proof. destruct l as [|y l]; [congruence|reflexivity]. Qed.

Lemma string_app_assoc (a b c : string) : (a ++ b) ++ c = a ++ (b ++ c).
Proof. induction a as [|x a IH]; simpl; [reflexivity|now rewrite IH]. Qed.

Lemma join_nl_app l1 l2 :
  l1 <> [] -> l2 <> [] ->
  Str.join_nl (l1 ++ l2) = Str.join_nl l1 ++ nl ++ Str.join_nl l2.
Proof.
  intros H1 H2. induction l1 as [|x l1 IH]; [congruence|].
  destruct l1 as [|y l1].
  - simpl app. now rewrite join_nl_cons.
  - change ((x :: y :: l1) ++ l2)%list with (x :: ((y :: l1) ++ l2))%list.
    rewrite join_nl_cons by discriminate.
    rewrite IH by discriminate.
    rewrite (join_nl_cons x (y :: l1)) by discriminate.
    now rewrite !string_app_assoc.
Qed.

Lemma skipn_split {A} (l : list A) (a b : nat) :
  (a <= b)%nat ->
  skipn a l = (firstn (b - a) (skipn a l) ++ skipn b l)%list.
Proof.
  intros Hab.
  rewrite <- (firstn_skipn (b - a) (skipn a l)) at 1.
  f_equal. rewrite skipn_skipn. f_equal. lia.
Qed.

Lemma found_records_join lines : forall fps p,
  StronglySorted start_lt (p :: fps) ->
  Forall (fun q => 0 <= start_idx q < Z.of_nat (List.length lines)) (p :: fps) ->
  Str.join_nl (map log_content (found_records lines (p :: fps)))
  = Str.join_nl (skipn (Z.to_nat (start_idx p)) lines).
Proof.
  induction fps as [|q fps IH]; intros p Hs Hr.
  - inversion Hr as [|? ? Hp _]; subst. simpl.
    unfold Str.join_nl at 1. simpl concat.
    replace (Z.of_nat (List.length lines) - 1 + 1)
      with (Z.of_nat (List.length lines)) by lia.
    now rewrite slice_to_end by lia.
  - inversion Hs as [|? ? Hs' Hlt]; subst.
    inversion Hr as [|? ? Hp Hr']; subst.
    inversion Hlt as [|? ? Hpq _]; subst.
    inversion Hr' as [|? ? Hq _]; subst.
    unfold start_lt in Hpq.
    change (found_records lines (p :: q :: fps))
      with (found_step_data lines p (start_idx q - 1)
            :: found_records lines (q :: fps)).
    rewrite map_cons.
    rewrite join_nl_cons by (simpl; discriminate).
    rewrite (IH q Hs' Hr').
    change (log_content (found_step_data lines p (start_idx q - 1)))
      with (Str.join_nl (slice lines (start_idx p) (start_idx q - 1 + 1))).
    rewrite slice_inside by lia.
    replace (Z.to_nat (start_idx q - 1 + 1 - start_idx p))
      with (Z.to_nat (start_idx q) - Z.to_nat (start_idx p))%nat by lia.
    symmetry.
    rewrite (skipn_split lines (Z.to_nat (start_idx p)) (Z.to_nat (start_idx q)))
      at 1 by lia.
    rewrite join_nl_app.
    + reflexivity.
    + intros E. apply (f_equal (@List.length string)) in E.
      rewrite length_firstn, length_skipn in E. simpl in E. lia.
    + intros E. apply (f_equal (@List.length string)) in E.
      rewrite length_skipn in E. simpl in E. lia.
Qed.

(** X3.  When a step is located, the contents of the located records, taken
    in the order of the result and joined by line feeds, are the log from
    the first located line to its end: the ranges leave no gap and do not
    overlap. *)
Theorem located_contents_rebuild_log log steps job r rest :
  located_records (parse_log_by_steps log steps job) = r :: rest ->
  Str.join_nl (map log_content (r :: rest))
  = Str.join_nl (skipn (Z.to_nat (start_line r)) (log_lines log)).
Proof.
  rewrite located_records_parse. intros H.
  pose proof (sorted_found_strict log steps job) as Hs.
  pose proof (sorted_found_range log steps job) as Hr.
  pose proof (setup_end_idx_range log job) as Hi.
  destruct (sorted_found log steps job) as [|p fps]; [discriminate|].
  rewrite <- H.
  rewrite found_records_join; auto.
  - simpl in H. injection H as <- _. reflexivity.
  - eapply Forall_impl; [|exact Hr]. simpl. intros; lia.
Qed.

Lemma located_records_of_sentinel_log :
  located_records
    (parse_log_by_steps log_with_sentinel [run_step "echo hi"] "build")
  = [found_step_data (log_lines log_with_sentinel)
       (mark_found (new_pattern (run_step "echo hi")) 2) 3].
Proof. vm_compute. reflexivity. Defined.

Lemma located_contents_rebuild_log_witness :
  Str.join_nl
    (map log_content
       [found_step_data (log_lines log_with_sentinel)
          (mark_found (new_pattern (run_step "echo hi")) 2) 3])
  = Str.join_nl (skipn 2 (log_lines log_with_sentinel)).
Proof.
  apply (located_contents_rebuild_log log_with_sentinel [run_step "echo hi"]
           "build" _ [] located_records_of_sentinel_log).
Defined.

Lemma found_records_in_inv lines fps r :
  In r (found_records lines fps) ->
  exists p e, In p fps /\ r = found_step_data lines p e.
Proof.
  induction fps as [|q fps IH]; simpl; [tauto|].
  intros [<-|Hin].
  - eexists _, _. split; [left; reflexivity|reflexivity].
  - destruct (IH Hin) as (p & e & Hp & ->). exists p, e. auto.
Qed.

Lemma prefix_app s t : prefix s (s ++ t) = true.
Proof.
  induction s as [|c s IH]; simpl; [now destruct t|].
  destruct (ascii_dec c c); [exact IH|congruence].
Qed.

Lemma string_app_nil (s : string) : s ++ EmptyString = s.
Proof. induction s; simpl; congruence. Qed.

Lemma join_nl_prefix x l : prefix x (Str.join_nl (x :: l)) = true.
Proof.
  destruct l as [|y l].
  - unfold Str.join_nl. simpl concat.
    pose proof (prefix_app x EmptyString) as H.
    now rewrite string_app_nil in H.
  - rewrite join_nl_cons by discriminate. apply prefix_app.
Qed.

(** X4.  A located record starts after the setup boundary at a line that
    its identifier matches, and its [log_content] begins with that line. *)
Theorem located_record_starts_at_match log steps job r :
  In r (located_records (parse_log_by_steps log steps job)) ->
  exists id line,
    pattern_matched r = Some id
    /\ setup_end_idx log job < start_line r
    /\ nth_error (log_lines log) (Z.to_nat (start_line r)) = Some line
    /\ Re.search_word id line = true
    /\ prefix line (log_content r) = true.
Proof.
  rewrite located_records_parse. intros Hin.
  pose proof (found_records_spans (log_lines log) (setup_end_idx log job + 1)
                (sorted_found log steps job)
                ltac:(pose proof (setup_end_idx_range log job); lia)
                (sorted_found_strict log steps job)
                (sorted_found_range log steps job)) as Hsp.
  rewrite Forall_forall in Hsp. specialize (Hsp r Hin).
  destruct Hsp as (Hlo & Hhi & Hc).
  destruct (found_records_in_inv _ _ _ Hin) as (p & e & Hp & ->).
  simpl in *.
  assert (Hloc : In p (located_patterns log steps job) /\ found p = true).
  { apply filter_In. eapply Permutation_in; [apply sorted_found_perm|exact Hp]. }
  destruct Hloc as [Hloc Hf].
  destruct (found_is_matched _ _ _ _ Hloc Hf) as (line & H1 & H2 & _ & H4).
  exists (pattern p), line.
  rewrite (placed_pattern _ _ _ _ (located_placed _ _ _ _ Hloc)).
  repeat split; auto; try lia.
  rewrite Hc.
  pose proof (setup_end_idx_range log job) as Hi.
  destruct (skipn (Z.to_nat (start_idx p)) (log_lines log)) as [|l0 ls] eqn:Hsk.
  - apply (f_equal (@List.length string)) in Hsk.
    rewrite length_skipn in Hsk. simpl in Hsk. lia.
  - apply skipn_cons_nth in Hsk. destruct Hsk as [Hn _].
    rewrite H2 in Hn. injection Hn as <-.
    replace (Z.to_nat (e - start_idx p + 1))
      with (S (Z.to_nat (e - start_idx p))) by lia.
    simpl firstn. apply join_nl_prefix.
Qed.

Lemma located_record_starts_at_match_witness :
  exists id line,
    pattern_matched
      (found_step_data (log_lines log_with_sentinel)
         (mark_found (new_pattern (run_step "echo hi")) 2) 3) = Some id
    /\ setup_end_idx log_with_sentinel "build" < 2
    /\ nth_error (log_lines log_with_sentinel) (Z.to_nat 2) = Some line
    /\ Re.search_word id line = true
    /\ prefix line
         (log_content
            (found_step_data (log_lines log_with_sentinel)
               (mark_found (new_pattern (run_step "echo hi")) 2) 3)) = true.
Proof.
  apply (located_record_starts_at_match log_with_sentinel
           [run_step "echo hi"] "build").
  vm_compute. left. reflexivity.
Defined.

(** ** Steps with one identifier *)

Lemma scan_patterns_after_head i line p ps :
  (found p = true -> start_idx p < i) ->
  found p = true \/ Re.search_word (pattern p) line = false ->
  Forall (in_list_order p) ps ->
  Forall (in_list_order p) (scan_patterns i line ps).
Proof.
  intros Hlt Hp. induction 1 as [|q ps Hq Hps IH]; simpl; [constructor|].
  destruct (negb (found q) && Re.search_word (pattern q) line) eqn:E.
  - constructor; [|assumption].
    apply andb_true_iff in E. destruct E as [_ Hm].
    intros Hpat _. simpl in *.
    destruct Hp as [Hf|Hno]; [split; auto|].
    rewrite Hpat, Hm in Hno. discriminate.
  - constructor; assumption.
Qed.

Lemma scan_patterns_in_list_order i line ps :
  Forall (fun p => found p = true -> start_idx p < i) ps ->
  ForallOrdPairs in_list_order ps ->
  ForallOrdPairs in_list_order (scan_patterns i line ps).
Proof.
  intros Hlt. induction 1 as [|p ps Hp Hps IH]; simpl; [constructor|].
  inversion Hlt as [|? ? Hp_lt Hlt']; subst.
  destruct (negb (found p) && Re.search_word (pattern p) line) eqn:E.
  - constructor; [|assumption].
    apply andb_true_iff in E. destruct E as [Hnf _].
    apply negb_true_iff in Hnf.
    eapply Forall_impl; [|exact Hp].
    intros q Hq Hpat Hfq. simpl in Hpat.
    destruct (Hq Hpat Hfq) as [Hf _]. congruence.
  - constructor; [|now apply IH].
    apply scan_patterns_after_head; auto.
    apply andb_false_iff in E. destruct E as [E|E]; [left|now right].
    now apply negb_false_iff in E.
Qed.

Lemma search_inv_starts_below all lo hi ps :
  search_inv all lo hi ps ->
  Forall (fun p => found p = true -> start_idx p < hi) ps.
Proof.
  intros (Hp & _ & _). eapply Forall_impl; [|exact Hp].
  intros p [H|(i & line & H & Hi & _)] Hf.
  - rewrite H in Hf. discriminate.
  - rewrite H. simpl. lia.
Qed.

Lemma locate_in_list_order all lo lines : forall i ps,
  0 <= i -> lo <= i ->
  lines = skipn (Z.to_nat i) all ->
  search_inv all lo i ps ->
  ForallOrdPairs in_list_order ps ->
  ForallOrdPairs in_list_order (locate i lines ps).
Proof.
  induction lines as [|line rest IH]; intros i ps H0 Hi Hl Hinv Hord.
  - exact Hord.
  - symmetry in Hl. apply skipn_cons_nth in Hl. destruct Hl as [Hn Hr].
    simpl locate. apply IH; try lia.
    + rewrite <- Hr. f_equal. lia.
    + now apply scan_patterns_inv.
    + apply scan_patterns_in_list_order; [|exact Hord].
      eapply search_inv_starts_below, Hinv.
Qed.

Lemma new_patterns_in_list_order steps :
  ForallOrdPairs in_list_order (map new_pattern steps).
Proof.
  induction steps as [|s steps IH]; simpl; constructor; auto.
  apply Forall_forall. intros q Hq _ Hf.
  apply in_map_iff in Hq. destruct Hq as [s' [<- _]]. discriminate.
Qed.

Lemma ordered_pairs_nth {A} (R : A -> A -> Prop) l :
  ForallOrdPairs R l ->
  forall i j x y, (i < j)%nat ->
    nth_error l i = Some x -> nth_error l j = Some y -> R x y.
Proof.
  induction 1 as [|a l Ha _ IH]; intros i j x y Hij Hi Hj.
  - destruct i; discriminate.
  - destruct j as [|j]; [lia|]. simpl in Hj.
    destruct i as [|i]; simpl in Hi.
    + injection Hi as <-. rewrite Forall_forall in Ha.
      eapply Ha, nth_error_In, Hj.
    + eapply (IH i j); eauto. lia.
Qed.

(** X5.  Steps with the same identifier are located in the order of
    [job_steps]: when the later one of two is found, the earlier one is
    found too, at an earlier line. *)
Theorem same_identifier_located_in_order log steps job i j p q :
  (i < j)%nat ->
  nth_error (located_patterns log steps job) i = Some p ->
  nth_error (located_patterns log steps job) j = Some q ->
  pattern p = pattern q ->
  found q = true ->
  found p = true /\ start_idx p < start_idx q.
Proof.
  intros Hij Hp Hq Hpat Hf.
  assert (Hord : ForallOrdPairs in_list_order (located_patterns log steps job)).
  { unfold located_patterns. fold (setup_end_idx log job).
    pose proof (setup_end_idx_range log job) as Hi.
    rewrite slice_to_end by lia.
    eapply (locate_in_list_order (log_lines log) (setup_end_idx log job + 1));
      try lia; try reflexivity.
    - apply search_inv_init.
    - apply new_patterns_in_list_order. }
  exact (ordered_pairs_nth _ _ Hord i j p q Hij Hp Hq Hpat Hf).
Qed.

Lemma same_identifier_located_in_order_witness :
  found (mark_found (new_pattern (run_step "make")) 1) = true
  /\ start_idx (mark_found (new_pattern (run_step "make")) 1)
     < start_idx (mark_found (new_pattern (run_step "make")) 3).
Proof.
  apply (same_identifier_located_in_order log_with_two_runs
           [run_step "make"; run_step "make"] "build" 0 1).
  - lia.
  - vm_compute. reflexivity.
  - vm_compute. reflexivity.
  - reflexivity.
  - reflexivity.
Defined.

(** ** The rendering and the identifier of a step *)

Lemma join_nl_head_nonempty c x l :
  Str.join_nl (String c x :: l) <> EmptyString.
Proof. destruct l; discriminate. Qed.

(** X6.  The workflow code of a step is the empty string exactly when the
    step has none of [run], [uses], [name], [with] and [env]; a key that is
    present shows in the code even when its value is empty. *)
Theorem workflow_code_empty_iff st :
  get_step_workflow_code st = EmptyString
  <-> s_run st = None /\ s_uses st = None /\ s_name st = None
      /\ s_with st = None /\ s_env st = None.
Proof.
  destruct st as [n r u w e]. unfold get_step_workflow_code. simpl.
  split.
  - intros H.
    destruct r as [r|];
      [exfalso; revert H; simpl; apply join_nl_head_nonempty|].
    destruct u as [u|];
      [exfalso; revert H; simpl; apply join_nl_head_nonempty|].
    destruct n as [n|];
      [exfalso; revert H; simpl; apply join_nl_head_nonempty|].
    destruct w as [w|];
      [exfalso; revert H; simpl; apply join_nl_head_nonempty|].
    destruct e as [e|];
      [exfalso; revert H; simpl; apply join_nl_head_nonempty|].
    repeat split.
  - intros (-> & -> & -> & -> & ->). reflexivity.
Qed.

Lemma first_line_chars c s :
  mem_char c (Str.first_line s) = true -> is_linebreak c = false.
Proof.
  induction s as [|a s IH]; simpl; [discriminate|].
  destruct (is_linebreak a) eqn:Ea; simpl; [discriminate|].
  destruct (Ascii.eqb_spec a c) as [->|_]; simpl; auto.
Qed.

Lemma lstrip_bar_other a s :
  a <> "|"%char -> Str.lstrip_bar (String a s) = String a s.
Proof.
  intros Hne. destruct a as [[] [] [] [] [] [] [] []]; try reflexivity.
  now elim Hne.
Qed.

Lemma lstrip_bar_chars c s :
  mem_char c (Str.lstrip_bar s) = true -> mem_char c s = true.
Proof.
  induction s as [|a s IH]; [discriminate|].
  destruct (ascii_dec a "|") as [->|Hne].
  - simpl. intros H. rewrite (IH H). apply orb_true_r.
  - rewrite lstrip_bar_other by exact Hne. auto.
Qed.

Lemma lstrip_chars c s :
  mem_char c (Str.lstrip s) = true -> mem_char c s = true.
Proof.
  induction s as [|a s IH]; simpl; [discriminate|].
  destruct (is_space a); simpl; [|auto].
  intros H. rewrite (IH H). apply orb_true_r.
Qed.

Lemma rstrip_chars c s :
  mem_char c (Str.rstrip s) = true -> mem_char c s = true.
Proof.
  induction s as [|a s IH]; simpl; [discriminate|].
  destruct (Str.is_empty (Str.rstrip s) && is_space a); simpl;
    [discriminate|].
  destruct (Ascii.eqb a c); simpl; auto.
Qed.

Lemma lstrip_head s c : Str.hd (Str.lstrip s) = Some c -> is_space c = false.
Proof.
  induction s as [|a s IH]; simpl; [discriminate|].
  destruct (is_space a) eqn:Ea; simpl; [exact IH|].
  intros H. injection H as <-. exact Ea.
Qed.

Lemma rstrip_head s c :
  Str.hd (Str.rstrip s) = Some c -> Str.hd s = Some c.
Proof.
  destruct s as [|a s]; simpl; [discriminate|].
  destruct (Str.is_empty (Str.rstrip s) && is_space a); simpl;
    [discriminate|auto].
Qed.

Lemma rstrip_last s c :
  last_char (Str.rstrip s) = Some c -> is_space c = false.
Proof.
  induction s as [|a s IH]; simpl; [discriminate|].
  destruct (Str.rstrip s) as [|b r] eqn:Er; simpl.
  - destruct (is_space a) eqn:Ea; simpl; [discriminate|].
    intros H. injection H as <-. exact Ea.
  - exact IH.
Qed.

Lemma strip_trimmed s : trimmed (Str.strip s).
Proof.
  unfold trimmed, Str.strip. split.
  - intros c H. apply rstrip_head in H. eapply lstrip_head, H.
  - intros c H. eapply rstrip_last, H.
Qed.

(** X7.  Every identifier begins with "Run ".  The identifier of a step with
    a [run] script that is not empty is "Run " followed by a text that has
    no line boundary in it and neither starts nor ends with whitespace. *)
Theorem identifier_shape st :
  prefix Run_ (get_step_identifier st) = true
  /\ forall raw, s_run st = Some raw -> raw <> EmptyString ->
       exists t,
         get_step_identifier st = Run_ ++ t
         /\ (forall c, mem_char c t = true -> is_linebreak c = false)
         /\ trimmed t.
Proof.
  split.
  - unfold get_step_identifier.
    destruct (s_run st) as [raw|].
    + destruct (Str.splitlines raw); [reflexivity|apply prefix_app].
    + destruct (s_uses st); [apply prefix_app|].
      destruct (s_name st); [apply prefix_app|reflexivity].
  - intros raw Hr Hne.
    exists (Str.strip (Str.lstrip_bar (Str.first_line raw))).
    split; [|split].
    + unfold get_step_identifier, Str.splitlines. rewrite Hr.
      destruct raw as [|c s]; [congruence|].
      destruct (splitlines_first c s) as [rest ->]. reflexivity.
    + intros c Hc. apply (first_line_chars c raw).
      apply lstrip_bar_chars, lstrip_chars, rstrip_chars. exact Hc.
    + apply strip_trimmed.
Qed.

Lemma identifier_shape_witness :
  exists t,
    get_step_identifier (run_step "| echo hi ") = Run_ ++ t
    /\ (forall c, mem_char c t = true -> is_linebreak c = false)
    /\ trimmed t.
Proof.
  apply (proj2 (identifier_shape (run_step "| echo hi ")) "| echo hi ").
  - reflexivity.
  - discriminate.
Defined.

(** ** The job lookups in the workflow *)

Lemma lookup_job_in k jobs jd :
  lookup_job k jobs = Some jd -> In (k, jd) jobs.
Proof.
  induction jobs as [|[k' jd'] jobs IH]; simpl; [discriminate|].
  destruct (String.eqb_spec k' k) as [->|_].
  - intros H. injection H as <-. now left.
  - intros H. right. now apply IH.
Qed.

Lemma lookup_job_none k jobs :
  lookup_job k jobs = None -> forall kv, In kv jobs -> fst kv <> k.
Proof.
  induction jobs as [|[k' jd'] jobs IH]; simpl; [tauto|].
  destruct (String.eqb_spec k' k) as [->|Hne]; [discriminate|].
  intros H kv [<-|Hin]; [exact Hne|now apply IH].
Qed.

(** X8.  [get_job_steps_from_yaml] and [get_job_dependencies] resolve a job
    name to the same job.  When some job matches the name, by its key, by
    its [name], or by its [name] with the case ignored and only in part,
    both return what one such job declares; when no job matches, or the
    workflow has no [jobs], both return the empty list. *)
Theorem job_lookups_agree wf n :
  ((exists kv, In kv (get (w_jobs wf) []) /\ job_matches n kv) ->
   exists kv,
     In kv (get (w_jobs wf) []) /\ job_matches n kv
     /\ get_job_steps_from_yaml wf n = get (j_steps (snd kv)) []
     /\ get_job_dependencies wf n = dependencies_of (snd kv))
  /\ ((forall kv, In kv (get (w_jobs wf) []) -> ~ job_matches n kv) ->
      get_job_steps_from_yaml wf n = []
      /\ get_job_dependencies wf n = []).
Proof.
  unfold get_job_steps_from_yaml, get_job_dependencies.
  set (jobs := get (w_jobs wf) []).
  destruct (lookup_job n jobs) as [jd|] eqn:Hk.
  { pose proof (lookup_job_in _ _ _ Hk) as Hin. split.
    - intros _. exists (n, jd). repeat split; auto. now left.
    - intros Hno. exfalso. apply (Hno _ Hin). now left. }
  destruct (find (named n) jobs) as [[k jd]|] eqn:Hn.
  { apply find_some in Hn. destruct Hn as [Hin Hnamed]. split.
    - intros _. exists (k, jd). repeat split; auto. right. now left.
    - intros Hno. exfalso. apply (Hno _ Hin). right. now left. }
  destruct (find (partly_named n) jobs) as [[k jd]|] eqn:Hp.
  { apply find_some in Hp. destruct Hp as [Hin Hpart]. split.
    - intros _. exists (k, jd). repeat split; auto. right. now right.
    - intros Hno. exfalso. apply (Hno _ Hin). right. now right. }
  split; [|auto].
  intros (kv & Hin & [Hkey|[Hname|Hpart]]); exfalso.
  - exact (lookup_job_none _ _ Hk kv Hin Hkey).
  - rewrite (find_none _ _ Hn kv Hin) in Hname. discriminate.
  - rewrite (find_none _ _ Hp kv Hin) in Hpart. discriminate.
Qed.

Lemma job_lookups_agree_witness :
  exists kv,
    In kv (get (w_jobs workflow_ex) []) /\ job_matches "build APP" kv
    /\ get_job_steps_from_yaml workflow_ex "build APP"
       = get (j_steps (snd kv)) []
    /\ get_job_dependencies workflow_ex "build APP" = dependencies_of (snd kv).
Proof.
  apply (proj1 (job_lookups_agree workflow_ex "build APP")).
  eexists. split; [left; reflexivity|].
  right. right. reflexivity.
Defined.

Lemma contains_empty s : Str.contains EmptyString s = true.
Proof. destruct s; reflexivity. Qed.

(** X9.  The empty job name is part of every name.  When no key and no
    [name] of the workflow is the empty string, a lookup of the empty name
    returns the steps and the dependencies of the first job of the workflow
    instead of the empty list. *)
Theorem empty_job_name_takes_first_job wf kv rest :
  w_jobs wf = Some (kv :: rest) ->
  (forall kv', In kv' (kv :: rest) ->
     fst kv' <> EmptyString /\ j_name (snd kv') <> Some EmptyString) ->
  get_job_steps_from_yaml wf EmptyString = get (j_steps (snd kv)) []
  /\ get_job_dependencies wf EmptyString = dependencies_of (snd kv).
Proof.
  intros Hw Hno.
  unfold get_job_steps_from_yaml, get_job_dependencies. rewrite Hw.
  simpl get.
  destruct (lookup_job EmptyString (kv :: rest)) as [jd|] eqn:Hk.
  { apply lookup_job_in in Hk. destruct (Hno _ Hk) as [H _]. now elim H. }
  destruct (find (named EmptyString) (kv :: rest)) as [[k jd]|] eqn:Hn.
  { apply find_some in Hn. destruct Hn as [Hin Hnamed].
    destruct (Hno _ Hin) as [_ H]. unfold named in Hnamed. simpl in *.
    destruct (j_name jd) as [m|]; [|discriminate].
    apply String.eqb_eq in Hnamed. subst. now elim H. }
  simpl find. unfold partly_named at 1 3. simpl lower_str at 1 3.
  rewrite contains_empty. destruct kv. split; reflexivity.
Qed.

Lemma empty_job_name_takes_first_job_witness :
  get_job_steps_from_yaml workflow_ex EmptyString = [run_step "make"]
  /\ get_job_dependencies workflow_ex EmptyString = ["lint"].
Proof.
  apply (empty_job_name_takes_first_job workflow_ex
           ("build", mkJob (Some "Build app") (Some [run_step "make"])
                       (Some (needs_str "lint")))
           [("lint", mkJob None None None)]).
  - reflexivity.
  - intros kv' [<-|[<-|[]]]; split; discriminate.
Defined.

(** ** Log file names *)

Lemma mem_char_app c s t :
  mem_char c (s ++ t) = mem_char c s || mem_char c t.
Proof.
  induction s as [|a s IH]; simpl; [reflexivity|].
  now rewrite IH, orb_assoc.
Qed.

Lemma txt_len_other c t : c <> "."%char -> txt_len (String c t) = None.
Proof.
  intros Hc. unfold txt_len.
  change (prefix ".txt" (String c t))
    with (if ascii_dec "." c then prefix "txt" t else false).
  destruct (ascii_dec "." c) as [E|_]; [now elim Hc|reflexivity].
Qed.

Lemma remove_txt_suffix s :
  mem_char "." s = false -> Re.sub_empty txt_len 0 (s ++ ".txt") = s.
Proof.
  induction s as [|c s IH]; intros H; [reflexivity|].
  simpl in H. apply orb_false_iff in H. destruct H as [Hc Hs].
  change (Re.sub_empty txt_len 0 (String c s ++ ".txt"))
    with (match txt_len (String c (s ++ ".txt")) with
          | Some (S k) => Re.sub_empty txt_len k (s ++ ".txt")
          | _ => String c (Re.sub_empty txt_len 0 (s ++ ".txt"))
          end).
  rewrite txt_len_other.
  - now rewrite IH.
  - intros ->. discriminate.
Qed.

Lemma all_digits_no_dot d : all_digits d = true -> mem_char "." d = false.
Proof.
  induction d as [|c d IH]; simpl; [reflexivity|].
  intros H. apply andb_true_iff in H. destruct H as [Hc Hd].
  rewrite (IH Hd), orb_false_r.
  destruct (Ascii.eqb_spec c ".") as [->|_]; [discriminate|reflexivity].
Qed.

Lemma after_digits_app d t :
  all_digits d = true -> after_digits (d ++ String "_" t) = String "_" t.
Proof.
  induction d as [|c d IH]; simpl; [reflexivity|].
  intros H. apply andb_true_iff in H. destruct H as [Hc Hd].
  now rewrite Hc, IH.
Qed.

Lemma until_lf_no_lf s : mem_char LF s = false -> until_lf s = s.
Proof.
  induction s as [|c s IH]; simpl; [reflexivity|].
  intros H. apply orb_false_iff in H. destruct H as [Hc Hs].
  now rewrite Hc, IH.
Qed.

(** X10.  A log file name made of a number, an underscore, a job name and
    the [.txt] extension gives back the job name, when that name is not
    empty and has no dot and no line feed in it; a name with no dot that
    does not start with a digit is returned without its extension. *)
Theorem numbered_log_name_gives_job d j :
  (d <> EmptyString -> all_digits d = true ->
   j <> EmptyString -> mem_char "." j = false -> mem_char LF j = false ->
   _extract_job_name_from_filename (d ++ "_" ++ j ++ ".txt") = j)
  /\ (mem_char "." j = false ->
      (forall c, Str.hd j = Some c -> in_range 48 57 c = false) ->
      _extract_job_name_from_filename (j ++ ".txt") = j).
Proof.
  split.
  - intros Hd Hdig Hj Hdot Hlf. unfold _extract_job_name_from_filename.
    replace (d ++ "_" ++ j ++ ".txt") with ((d ++ "_" ++ j) ++ ".txt")
      by (now rewrite !string_app_assoc).
    rewrite remove_txt_suffix.
    + unfold numbered_group.
      destruct d as [|c d]; [congruence|].
      simpl in Hdig. apply andb_true_iff in Hdig. destruct Hdig as [Hc Hd'].
      change (String c d ++ "_" ++ j) with (String c (d ++ String "_" j)).
      cbv beta iota. rewrite Hc.
      change (after_digits (String c (d ++ String "_" j)))
        with (if in_range 48 57 c then after_digits (d ++ String "_" j)
              else String c (d ++ String "_" j)).
      rewrite Hc, after_digits_app by exact Hd'.
      rewrite until_lf_no_lf by exact Hlf.
      destruct j; [congruence|reflexivity].
    + rewrite !mem_char_app, Hdot, (all_digits_no_dot d Hdig). reflexivity.
  - intros Hdot Hhd. unfold _extract_job_name_from_filename.
    rewrite remove_txt_suffix by exact Hdot.
    unfold numbered_group. destruct j as [|c j]; [reflexivity|].
    cbv beta iota. now rewrite (Hhd c eq_refl).
Qed.

Lemma numbered_log_name_gives_job_witness :
  _extract_job_name_from_filename "2_test-job.txt" = "test-job".
Proof.
  apply (proj1 (numbered_log_name_gives_job "2" "test-job"));
    solve [reflexivity | discriminate].
Defined.

(** ** The match of a job with its log *)

Lemma lower_is_word c : is_word (lower c) = true <-> is_word c = true.
Proof. destruct c as [[] [] [] [] [] [] [] []]; vm_compute; tauto. Qed.

Lemma lower_lower c : lower (lower c) = lower c.
Proof. destruct c as [[] [] [] [] [] [] [] []]; reflexivity. Qed.

Lemma collapse_nonword_word s : forall b,
  lower_word (lower_str (collapse_nonword b s)) = true.
Proof.
  induction s as [|c s IH]; intros b; simpl; [reflexivity|].
  destruct (is_word c) eqn:Hc; simpl.
  - rewrite (proj2 (lower_is_word c) Hc), lower_lower, Ascii.eqb_refl.
    apply IH.
  - destruct b; simpl; apply IH.
Qed.

Lemma lower_word_fixed s :
  lower_word s = true ->
  lower_str (collapse_nonword false s) = s.
Proof.
  induction s as [|c s IH]; simpl; [reflexivity|].
  intros H. apply andb_true_iff in H. destruct H as [H Hs].
  apply andb_true_iff in H. destruct H as [Hw Hl].
  apply Ascii.eqb_eq in Hl.
  rewrite Hw. simpl. now rewrite Hl, IH.
Qed.

(** X11.  For a name whose characters are code points below 256, the
    normalized name has only word characters, none in upper case, and
    normalizing it again changes nothing.  The bound is needed: above it
    [str.lower] can give more than one character for one. *)
Theorem normalizer_idempotent s :
  lower_word (normalizer s) = true
  /\ normalizer (normalizer s) = normalizer s.
Proof.
  assert (H : lower_word (normalizer s) = true)
    by apply collapse_nonword_word.
  split; [exact H|]. unfold normalizer at 1. now apply lower_word_fixed.
Qed.

Lemma find_first {A} (f : A -> bool) before x after :
  (forall y, In y before -> f y = false) -> f x = true ->
  find f (before ++ x :: after) = Some x.
Proof.
  intros Hb Hx. induction before as [|y before IH]; simpl.
  - now rewrite Hx.
  - rewrite (Hb y (or_introl eq_refl)). apply IH.
    intros z Hz. apply Hb. now right.
Qed.

(** X12.  A log whose normalized name equals the normalized name of the job
    is chosen before any log that matches only in part: the content
    returned is that of the first log with the same normalized name, also
    when logs that match in part come before it. *)
Theorem match_prefers_same_name job before log_name content after :
  normalizer log_name = normalizer (get (a_name job) EmptyString) ->
  (forall kv, In kv before ->
     normalizer (fst kv) <> normalizer (get (a_name job) EmptyString)) ->
  _match_job_with_log job (before ++ (log_name, content) :: after) = content.
Proof.
  intros Heq Hb. unfold _match_job_with_log.
  rewrite (find_first _ before (log_name, content) after); [reflexivity| |].
  - intros kv Hkv. unfold same_name.
    destruct (String.eqb_spec
                (normalizer (get (a_name job) EmptyString))
                (normalizer (fst kv))) as [E|_]; [|reflexivity].
    exfalso. apply (Hb kv Hkv). now symmetry.
  - unfold same_name. simpl. rewrite Heq. apply String.eqb_refl.
Qed.

Lemma match_prefers_same_name_witness :
  _match_job_with_log (job_named "Build & Test")
    ([("build", "partial")] ++ ("build_test", "exact") :: [])
  = "exact".
Proof.
  apply (match_prefers_same_name (job_named "Build & Test")
           [("build", "partial")] "build_test" "exact" []).
  - reflexivity.
  - intros kv [<-|[]]. vm_compute. discriminate.
Defined.

Lemma contains_refl s : Str.contains s s = true.
Proof.
  destruct s as [|c s]; [reflexivity|].
  pose proof (prefix_app (String c s) EmptyString) as H.
  rewrite string_app_nil in H.
  unfold Str.contains; fold Str.contains. now rewrite H.
Qed.

(** X13.  The content returned for a job is that of a log whose normalized
    name contains the normalized name of the job or is contained in it,
    whenever there is such a log; when there is none, and so when there
    are no logs at all, the empty string is returned. *)
Theorem match_returns_matching_log job logs_dict :
  let n := normalizer (get (a_name job) EmptyString) in
  ((exists kv, In kv logs_dict /\ partial_name n kv = true) ->
   exists kv,
     In kv logs_dict /\ partial_name n kv = true
     /\ _match_job_with_log job logs_dict = snd kv)
  /\ ((forall kv, In kv logs_dict -> partial_name n kv = false) ->
      _match_job_with_log job logs_dict = EmptyString).
Proof.
  intros n. unfold _match_job_with_log. fold n.
  destruct (find (same_name n) logs_dict) as [[k c]|] eqn:Hs.
  { apply find_some in Hs. destruct Hs as [Hin Hsame].
    assert (Hp : partial_name n (k, c) = true).
    { unfold same_name in Hsame. apply String.eqb_eq in Hsame.
      unfold partial_name. simpl in *. rewrite <- Hsame.
      now rewrite contains_refl. }
    split.
    - intros _. exists (k, c). auto.
    - intros Hno. rewrite (Hno _ Hin) in Hp. discriminate. }
  destruct (find (partial_name n) logs_dict) as [[k c]|] eqn:Hp.
  { apply find_some in Hp. destruct Hp as [Hin Hpart]. split.
    - intros _. exists (k, c). auto.
    - intros Hno. rewrite (Hno _ Hin) in Hpart. discriminate. }
  split; [|reflexivity].
  intros (kv & Hin & Hkv).
  rewrite (find_none _ _ Hp kv Hin) in Hkv. discriminate.
Qed.

Lemma match_returns_matching_log_witness :
  exists kv,
    In kv [("1_lint", "lint log"); ("2_build", "build log")]
    /\ partial_name (normalizer "Build") kv = true
    /\ _match_job_with_log (job_named "Build")
         [("1_lint", "lint log"); ("2_build", "build log")] = snd kv.
Proof.
  apply (proj1 (match_returns_matching_log (job_named "Build")
                  [("1_lint", "lint log"); ("2_build", "build log")])).
  exists ("2_build", "build log"). split.
  - right. left. reflexivity.
  - reflexivity.
Defined.

(** X14.  A job without a [name] is matched with the first log: its
    normalized name is empty and is part of every log name, so, unless a
    log name normalizes to the empty string, the content of the first log
    of [logs_dict] is returned. *)
Theorem unnamed_job_takes_first_log job kv rest :
  a_name job = None \/ a_name job = Some EmptyString ->
  (forall kv', In kv' (kv :: rest) -> normalizer (fst kv') <> EmptyString) ->
  _match_job_with_log job (kv :: rest) = snd kv.
Proof.
  intros Hname Hno. unfold _match_job_with_log.
  assert (Hn : normalizer (get (a_name job) EmptyString) = EmptyString)
    by (destruct Hname as [-> | ->]; reflexivity).
  rewrite Hn.
  destruct (find (same_name EmptyString) (kv :: rest)) as [[k c]|] eqn:Hs.
  { apply find_some in Hs. destruct Hs as [Hin Hsame].
    unfold same_name in Hsame. apply String.eqb_eq in Hsame.
    exfalso. apply (Hno _ Hin). now symmetry. }
  simpl find. unfold partial_name at 1. rewrite contains_empty.
  simpl. now destruct kv.
Qed.

Lemma unnamed_job_takes_first_log_witness :
  _match_job_with_log (mkApiJob None)
    [("1_lint", "lint log"); ("2_build", "build log")]
  = "lint log".
Proof.
  apply (unnamed_job_takes_first_log (mkApiJob None) ("1_lint", "lint log")
           [("2_build", "build log")]).
  - left. reflexivity.
  - intros kv' [<-|[<-|[]]]; vm_compute; discriminate.
Defined.

(** ** The setup scan and the number of located steps *)

Lemma scan_setup_prefix pat lines : forall i,
  exists rest,
    lines = (fst (scan_setup pat i lines) ++ rest)%list
    /\ Forall (fun l => Str.contains pat l = false)
         (fst (scan_setup pat i lines))
    /\ match rest with
       | [] => snd (scan_setup pat i lines) = 0
       | l :: _ =>
           Str.contains pat l = true
           /\ snd (scan_setup pat i lines)
              = i + Z.of_nat (List.length (fst (scan_setup pat i lines)))
       end.
Proof.
  induction lines as [|line rest IH]; intros i; simpl.
  - exists []. repeat split. constructor.
  - destruct (Str.contains pat line) eqn:Hc; simpl.
    + exists (line :: rest). repeat split; [constructor|exact Hc|lia].
    + destruct (IH (i + 1)) as (r & Hl & Hf & Hr).
      destruct (scan_setup pat (i + 1) rest) as [sl idx]. simpl in *.
      exists r. split; [now f_equal|]. split; [now constructor|].
      destruct r as [|l r]; [exact Hr|].
      destruct Hr as [Hl' ->]. split; [exact Hl'|lia].
Qed.

(** X15.  The setup record holds the longest run of lines from the start of
    the log that do not contain the sentinel.  If a line follows that run,
    it contains the sentinel and its index is the [end_line] of the setup
    record; if the run is the whole log, the [end_line] is 0. *)
Theorem setup_holds_lines_before_sentinel log steps job :
  exists first records kept rest,
    parse_log_by_steps log steps job = first :: records
    /\ log_lines log = (kept ++ rest)%list
    /\ log_content first = Str.join_nl kept
    /\ Forall (fun l => Str.contains (setup_end_pattern job) l = false) kept
    /\ match rest with
       | [] => end_line first = 0
       | l :: _ =>
           Str.contains (setup_end_pattern job) l = true
           /\ end_line first = Z.of_nat (List.length kept)
       end.
Proof.
  rewrite parse_shape.
  destruct (scan_setup_prefix (setup_end_pattern job) (log_lines log) 0)
    as (rest & Hl & Hf & Hr).
  fold (setup_log log job) in Hl, Hf, Hr.
  fold (setup_end_idx log job) in Hr.
  eexists _, _, (setup_log log job), rest.
  split; [reflexivity|]. split; [exact Hl|]. split; [reflexivity|].
  split; [exact Hf|]. exact Hr.
Qed.

Lemma nodup_in_range_length (l : list Z) lo hi :
  NoDup l -> Forall (fun x => lo <= x < hi) l ->
  Z.of_nat (List.length l) <= Z.max 0 (hi - lo).
Proof.
  intros Hnd Hr.
  assert (Hmap : NoDup (map (fun x => Z.to_nat (x - lo)) l)).
  { apply NoDup_map_NoDup_ForallPairs; [|exact Hnd].
    rewrite Forall_forall in Hr.
    intros a b Ha Hb E. specialize (Hr a Ha) as Ha'.
    specialize (Hr b Hb) as Hb'. lia. }
  assert (Hincl : incl (map (fun x => Z.to_nat (x - lo)) l)
                    (seq 0 (Z.to_nat (hi - lo)))).
  { intros n Hn. apply in_map_iff in Hn. destruct Hn as (x & <- & Hx).
    rewrite Forall_forall in Hr. specialize (Hr x Hx).
    apply in_seq. lia. }
  pose proof (NoDup_incl_length Hmap Hincl) as Hlen.
  rewrite length_map, length_seq in Hlen. lia.
Qed.

(** X16.  No two steps are located at one line, so there are at most as
    many located records as there are lines after the setup boundary. *)
Theorem located_count_bounded_by_lines log steps job :
  (List.length (located_records (parse_log_by_steps log steps job))
   <= List.length (remaining_lines log job))%nat.
Proof.
  rewrite located_records_parse, found_records_length.
  rewrite (Permutation_length (sorted_found_perm log steps job)).
  destruct (located_inv log steps job) as (_ & Hnd & Hr).
  pose proof (nodup_in_range_length _ _ _ Hnd Hr) as H.
  unfold found_starts in H. rewrite length_map in H.
  pose proof (setup_end_idx_range log job) as Hi.
  unfold remaining_lines. rewrite length_skipn. lia.
Qed.
